(** * The log_helper worker of rspamd: wire frames, the read callback and
      the fan-out to Lua handlers.

    Shallow embedding of [src/log_helper.c].  The C code is modelled in a
    small state-and-error monad over a [world] that holds what the worker
    touches: the Lua value stack, the Lua engine behind [lua_pcall], the
    log, the libevent registration of the read event and the system calls
    issued so far. *)

From Stdlib Require Import String ZArith List Lia Bool.
From Stdlib Require Import Strings.Byte.
Import ListNotations.
Local Open Scope Z_scope.

(** ** Machine integers and raw memory *)

Module Mem.

Inductive byte_order := LittleEndian | BigEndian.

(** [size_t] arithmetic wraps modulo 2^64, [guint32] modulo 2^32. *)
Definition size_t (z : Z) : Z := z mod 2 ^ 64.
Definition guint32 (z : Z) : Z := z mod 2 ^ 32.

(** Two's complement reading of a [w]-bit pattern. *)
Definition to_signed (w z : Z) : Z :=
  if z <? 2 ^ (w - 1) then z else z - 2 ^ w.

Fixpoint le_uint (bs : list byte) : Z :=
  match bs with
  | [] => 0
  | b :: tl => Z.of_N (Byte.to_N b) + 256 * le_uint tl
  end.

Definition host_uint (bo : byte_order) (bs : list byte) : Z :=
  match bo with
  | LittleEndian => le_uint bs
  | BigEndian => le_uint (rev bs)
  end.

(** [load m off len]: the [len] bytes of the object [m] at offset [off];
    [None] when the access leaves the object (undefined behaviour in C). *)
Definition load (m : list byte) (off len : Z) : option (list byte) :=
  if (0 <=? off) && (0 <=? len) && (off + len <=? Z.of_nat (length m))
  then Some (firstn (Z.to_nat len) (skipn (Z.to_nat off) m))
  else None.

Definition load_uint (bo : byte_order) (m : list byte) (off len : Z)
  : option Z :=
  option_map (host_uint bo) (load m off len).

End Mem.

(** ** The wire structures

    [struct rspamd_protocol_log_message_sum] and
    [struct rspamd_protocol_log_symbol_result] are declared in
    libserver/protocol.h, which is not part of the sources at hand.  Their
    sizes and field offsets are therefore a parameter of the development. *)

Module Wire.
Import Mem.

Record layout := {
  host_order : byte_order;
  sizeof_sum : Z;         (* sizeof (struct rspamd_protocol_log_message_sum) *)
  sizeof_result : Z;      (* sizeof (struct rspamd_protocol_log_symbol_result) *)
  off_score : Z;          (* offsetof (sum, score) *)
  off_required_score : Z; (* offsetof (sum, required_score) *)
  off_settings_id : Z;    (* offsetof (sum, settings_id) *)
  off_results : Z;        (* offsetof (sum, results) *)
  off_res_id : Z;         (* offsetof (symbol_result, id) *)
  off_res_score : Z       (* offsetof (symbol_result, score) *)
}.

(** Modelled from the spec: the field types of the two structures, which
    libserver/protocol.h would give.  The external-interfaces section
    lists the header as a 32-bit unsigned count, two float64 scores and a
    32-bit unsigned settings id, and a symbol result as a 32-bit integer
    id with a float64 score. *)
Definition width_count : Z := 4.
Definition width_double : Z := 8.
Definition width_settings_id : Z := 4.
Definition width_res_id : Z := 4.

Definition field_inside (off width total : Z) : bool :=
  (0 <=? off) && (off + width <=? total).

(** A layout a C compiler can produce: every header field lies inside the
    header, the flexible array member starts no later than the header
    ends, and every result field lies inside one result. *)
Definition layout_ok (ly : layout) : bool :=
  (width_count <=? sizeof_sum ly)
  && (sizeof_sum ly <? 2 ^ 63)
  && (0 <? sizeof_result ly)
  && field_inside (off_score ly) width_double (sizeof_sum ly)
  && field_inside (off_required_score ly) width_double (sizeof_sum ly)
  && field_inside (off_settings_id ly) width_settings_id (sizeof_sum ly)
  && field_inside (off_results ly) 0 (sizeof_sum ly)
  && field_inside (off_res_id ly) width_res_id (sizeof_result ly)
  && field_inside (off_res_score ly) width_double (sizeof_result ly).

(** [layout_ok] spelled out. *)
Record layout_facts (ly : layout) : Prop := {
  lf_count : 4 <= sizeof_sum ly;
  lf_sum_small : sizeof_sum ly < 2 ^ 63;
  lf_result_pos : 0 < sizeof_result ly;
  lf_score : 0 <= off_score ly /\ off_score ly + 8 <= sizeof_sum ly;
  lf_required :
    0 <= off_required_score ly /\ off_required_score ly + 8 <= sizeof_sum ly;
  lf_settings :
    0 <= off_settings_id ly /\ off_settings_id ly + 4 <= sizeof_sum ly;
  lf_results : 0 <= off_results ly /\ off_results ly <= sizeof_sum ly;
  lf_res_id : 0 <= off_res_id ly /\ off_res_id ly + 4 <= sizeof_result ly;
  lf_res_score :
    0 <= off_res_score ly /\ off_res_score ly + 8 <= sizeof_result ly
}.

(** The layout of the two structures under the x86-64 System V ABI when
    the header is declared as count, settings id, score, required score. *)
Definition x86_64 : layout := {|
  host_order := LittleEndian;
  sizeof_sum := 24;
  sizeof_result := 16;
  off_score := 8;
  off_required_score := 16;
  off_settings_id := 4;
  off_results := 24;
  off_res_id := 0;
  off_res_score := 8
|}.

End Wire.

(** ** Lua values and the engine behind [lua_pcall] *)

Module Lua.

(** A [lua_Number] is a C double.  The worker never computes with one: it
    either forwards the 64 bits found in the frame or converts a 32-bit
    integer, which is exact. *)
Inductive lua_Number :=
| num_of_int (z : Z)
| num_of_bits (bits : Z).

(** Tables built by the worker are fresh and never aliased, so they are
    carried by value, as association lists in insertion order.  A value
    the worker only fetches from the registry is named by its slot. *)
#[local] Unset Elimination Schemes.
Inductive lua_value :=
| LNil
| LNumber (x : lua_Number)
| LString (s : string)
| LTable (t : list (Z * lua_value))
| LUserdata (payload : option Z) (metatable : option string)
| LRegistryValue (ref : Z).
#[local] Set Elimination Schemes.

(** What the engine does with a protected call: the new engine state and,
    when the callee raised, the error value. *)
Class LuaEngine (E : Type) := {
  protected_call : E -> lua_value -> list lua_value -> E * option lua_value
}.

Record call_record := {
  callee : lua_value;
  call_args : list lua_value;
  call_error : option lua_value
}.

Definition LUA_ERRRUN : Z := 2.

Definition is_nil (v : lua_value) : bool :=
  match v with LNil => true | _ => false end.

(** [t[k] = v] without metamethods: an existing key is overwritten in
    place, a new one is appended, and storing nil removes the key. *)
Fixpoint table_put (t : list (Z * lua_value)) (k : Z) (v : lua_value)
  : list (Z * lua_value) :=
  match t with
  | [] => [(k, v)]
  | (k', v') :: tl =>
      if k' =? k then (k, v) :: tl else (k', v') :: table_put tl k v
  end.

Definition table_rawset (t : list (Z * lua_value)) (k : Z) (v : lua_value)
  : list (Z * lua_value) :=
  if is_nil v then filter (fun kv => negb (fst kv =? k)) t
  else table_put t k v.

Fixpoint table_rawget (t : list (Z * lua_value)) (k : Z) : lua_value :=
  match t with
  | [] => LNil
  | (k', v') :: tl => if k' =? k then v' else table_rawget tl k
  end.

End Lua.


(** ** The world of the worker and its monad *)

Module Sys.

Inductive errno :=
| EAGAIN | EINTR | EBADF | ECONNRESET | ENOTCONN | EIO
| EMFILE | ENFILE | EAFNOSUPPORT | EPROTONOSUPPORT | EOPNOTSUPP.

Inductive sock_type := SOCK_SEQPACKET | SOCK_DGRAM.

(** What one [read] on the retained endpoint meets. *)
Inductive recv :=
| Datagram (payload : list byte)  (* a message a peer has written *)
| Eof                             (* the peers have gone: [read] gives 0 *)
| ReadError (e : errno).          (* [read] gives -1 and sets errno *)

(** What the event loop delivers to the worker. *)
Inductive notification :=
| SrvReply                        (* the supervisor answers the command *)
| Readable (x : recv).            (* pair[0] is ready for reading *)

Inductive sys_event :=
| sys_prepare_worker
| sys_socketpair (t : sock_type) (ret : Z)
| sys_lock_start_mtx
| sys_srv_send_command (attached_fd : Z)
| sys_unlock_start_mtx
| sys_event_base_loop
| sys_close (fd : Z)
| sys_block_signals
| sys_log_close
| sys_exit (status : Z).

Inductive log_entry :=
| warn_bad_length (announced available : Z)
| warn_read (e : errno)
| err_handler (diagnostic : Lua.lua_value)
| err_socketpair (e : errno)
| info_start_waiting.

Definition EXIT_SUCCESS : Z := 0.

(** The host the worker starts on. *)
Record host := {
  HAVE_SOCK_SEQPACKET : bool;
  socketpair_ret : sock_type -> Z;         (* 0, or -1 on failure *)
  socketpair_errno : sock_type -> errno;
  socketpair_fds : sock_type -> Z * Z;
  incoming : list notification             (* what the loop will deliver *)
}.

(** The socket types tried, in order, and the number of commands sent to
    the supervisor, in a run of system calls. *)
Definition socketpair_attempts (tr : list sys_event) : list sock_type :=
  flat_map (fun s => match s with
                     | sys_socketpair t _ => [t]
                     | _ => []
                     end) tr.

Definition registration_attempts (tr : list sys_event) : nat :=
  length (filter (fun s => match s with
                           | sys_srv_send_command _ => true
                           | _ => false
                           end) tr).

(** A libevent event: whether it was set with EV_PERSIST and whether it
    is currently added to the base. *)
Record event := {
  ev_fd : Z;
  ev_persist : bool;
  ev_added : bool
}.

End Sys.

Module LogHelper.
Import Mem Wire Lua Sys.

Section Worker.

Context {E : Type} `{LuaEngine E}.
Variable ly : layout.

Record world := {
  stack : list lua_value;      (* the Lua stack, top first *)
  engine : E;                  (* the rest of the Lua state *)
  calls : list call_record;    (* protected calls so far, oldest first *)
  log : list log_entry;        (* oldest first *)
  errno_var : errno;
  log_ev : event;
  reply_pending : bool;        (* a command waits for the supervisor *)
  syscalls : list sys_event    (* oldest first *)
}.

Definition set_stack (w : world) (s : list lua_value) : world :=
  {| stack := s; engine := engine w; calls := calls w; log := log w;
     errno_var := errno_var w; log_ev := log_ev w;
     reply_pending := reply_pending w; syscalls := syscalls w |}.

Definition set_call (w : world) (s : list lua_value) (e : E)
  (c : call_record) : world :=
  {| stack := s; engine := e; calls := calls w ++ [c]; log := log w;
     errno_var := errno_var w; log_ev := log_ev w;
     reply_pending := reply_pending w; syscalls := syscalls w |}.

Definition add_log (w : world) (l : log_entry) : world :=
  {| stack := stack w; engine := engine w; calls := calls w;
     log := log w ++ [l];
     errno_var := errno_var w; log_ev := log_ev w;
     reply_pending := reply_pending w; syscalls := syscalls w |}.

Definition set_errno (w : world) (e : errno) : world :=
  {| stack := stack w; engine := engine w; calls := calls w; log := log w;
     errno_var := e; log_ev := log_ev w;
     reply_pending := reply_pending w; syscalls := syscalls w |}.

Definition set_log_ev (w : world) (ev : event) : world :=
  {| stack := stack w; engine := engine w; calls := calls w; log := log w;
     errno_var := errno_var w; log_ev := ev;
     reply_pending := reply_pending w; syscalls := syscalls w |}.

Definition set_reply_pending (w : world) (b : bool) : world :=
  {| stack := stack w; engine := engine w; calls := calls w; log := log w;
     errno_var := errno_var w; log_ev := log_ev w;
     reply_pending := b; syscalls := syscalls w |}.

Definition add_syscall (w : world) (s : sys_event) : world :=
  {| stack := stack w; engine := engine w; calls := calls w; log := log w;
     errno_var := errno_var w; log_ev := log_ev w;
     reply_pending := reply_pending w; syscalls := syscalls w ++ [s] |}.

(** State threaded through the C code; [None] is undefined behaviour
    (a read outside an object, a Lua API call on a stack that does not
    hold what the call needs). *)
Definition M (A : Type) : Type := world -> option (A * world).

Definition ret {A} (a : A) : M A := fun w => Some (a, w).

Definition bind {A B} (m : M A) (k : A -> M B) : M B :=
  fun w => match m w with
           | Some (a, w') => k a w'
           | None => None
           end.

Definition lift {A} (o : option A) : M A :=
  fun w => match o with Some a => Some (a, w) | None => None end.

Definition gets {A} (f : world -> A) : M A := fun w => Some (f w, w).

Definition modify (f : world -> world) : M unit := fun w => Some (tt, f w).

Notation "x <- m ;; k" := (bind m (fun x => k))
  (at level 61, m at next level, right associativity).
Notation "m ;; k" := (bind m (fun _ => k))
  (at level 61, right associativity).

(** *** The Lua C API, as far as the worker uses it

    Indices are relative to the top of the stack (negative), the only kind
    the worker passes. *)

Definition replace_nth {A} (pos : nat) (a : A) (l : list A) : list A :=
  firstn pos l ++ a :: skipn (S pos) l.

Definition push (v : lua_value) : M unit :=
  modify (fun w => set_stack w (v :: stack w)).

(** [lua_rawgeti (L, LUA_REGISTRYINDEX, ref)] *)
Definition lua_rawgeti_registry (ref : Z) : M unit :=
  push (LRegistryValue ref).

Definition lua_pushnumber (x : lua_Number) : M unit := push (LNumber x).

(** The two size arguments only preallocate. *)
Definition lua_createtable (narr nrec : Z) : M unit := push (LTable []).

(** [lua_rawseti (L, idx, k)]: pops the value on top and stores it at key
    [k] of the table that was at [idx] before the pop. *)
Definition lua_rawseti (idx k : Z) : M unit := fun w =>
  match stack w with
  | v :: below =>
      if idx <=? -2 then
        let pos := Z.to_nat (- idx - 2) in
        match nth_error below pos with
        | Some (LTable t) =>
            Some (tt, set_stack w
                        (replace_nth pos (LTable (table_rawset t k v)) below))
        | _ => None
        end
      else None
  | [] => None
  end.

(** [lua_newuserdata] pushes a fresh block; the caller then writes
    through the returned pointer, which [store_userdata] stands for. *)
Definition lua_newuserdata : M unit := push (LUserdata None None).

Definition store_userdata (p : Z) : M unit := fun w =>
  match stack w with
  | LUserdata _ mt :: below =>
      Some (tt, set_stack w (LUserdata (Some p) mt :: below))
  | _ => None
  end.

(** Modelled from the spec: [rspamd_lua_setclass] is defined in
    lua/lua_common.c, which is not among the sources.  The spec says only
    that handlers receive an opaque reference to the worker-wide
    configuration; the helper is taken to attach the metatable of the named
    class to the value at [objidx] and to leave the stack as it found it.
    Metatables are tracked on userdata only. *)
Definition rspamd_lua_setclass (classname : string) (objidx : Z) : M unit :=
  fun w =>
    if objidx <=? -1 then
      let pos := Z.to_nat (- objidx - 1) in
      match nth_error (stack w) pos with
      | Some (LUserdata p _) =>
          Some (tt, set_stack w
                      (replace_nth pos (LUserdata p (Some classname))
                         (stack w)))
      | Some _ => Some (tt, w)
      | None => None
      end
    else None.

(** [lua_pcall (L, nargs, 0, 0)]: pops the arguments and the function
    below them, runs the function, and pushes nothing on success and the
    error value on failure.  The worker asks for no results and installs no
    message handler; other uses are not modelled. *)
Definition lua_pcall (nargs nresults errfunc : Z) : M Z := fun w =>
  if (0 <=? nargs) && (nresults =? 0) && (errfunc =? 0) then
    let k := Z.to_nat nargs in
    match skipn k (stack w) with
    | f :: rest =>
        let args := rev (firstn k (stack w)) in
        let (e', res) := protected_call (engine w) f args in
        let c := {| callee := f; call_args := args; call_error := res |} in
        match res with
        | None => Some (0, set_call w rest e' c)
        | Some err => Some (LUA_ERRRUN, set_call w (err :: rest) e' c)
        end
    | [] => None
    end
  else None.

(** [lua_tostring (L, idx)]: the value whose string form gets logged. *)
Definition lua_tostring (idx : Z) : M lua_value := fun w =>
  if idx <=? -1 then
    match nth_error (stack w) (Z.to_nat (- idx - 1)) with
    | Some v => Some (v, w)
    | None => None
    end
  else None.

Definition lua_pop (n : Z) : M unit := fun w =>
  if (0 <=? n) && (n <=? Z.of_nat (length (stack w)))
  then Some (tt, set_stack w (skipn (Z.to_nat n) (stack w)))
  else None.

Definition msg (l : log_entry) : M unit := modify (fun w => add_log w l).

(** *** The worker

    [ctx->L] is the Lua state of the world and [ctx->log_ev] its event;
    the context keeps what the code reads from it otherwise. *)

Record rspamd_worker_lua_script := { cbref : Z }.

Record log_helper_ctx := {
  cfg : Z;                                   (* struct rspamd_config * *)
  scripts : list rspamd_worker_lua_script;   (* the DL list, head first *)
  pair : Z * Z
}.

Record rspamd_worker := {
  srv_cfg : Z;                                  (* worker->srv->cfg *)
  cf_scripts : list rspamd_worker_lua_script    (* worker->cf->scripts *)
}.

(** [guchar buf[1024]] *)
Definition sizeof_buf : Z := 1024.

(** [read (fd, buf, count)] on a message socket: the return value and the
    bytes now in [buf].  A message longer than [count] is cut and its tail
    is lost. *)
Definition read (x : recv) (count : Z) : M (Z * list byte) :=
  match x with
  | Datagram p =>
      let got := firstn (Z.to_nat count) p in
      ret (Z.of_nat (length got), got)
  | Eof => ret (0, [])
  | ReadError e => modify (fun w => set_errno w e);; ret (-1, [])
  end.

Definition sm_score (sm : list byte) : option Z :=
  load_uint (host_order ly) sm (off_score ly) width_double.

Definition sm_required_score (sm : list byte) : option Z :=
  load_uint (host_order ly) sm (off_required_score ly) width_double.

Definition sm_settings_id (sm : list byte) : option Z :=
  load_uint (host_order ly) sm (off_settings_id ly) width_settings_id.

(** Address of [sm->results[i]] relative to [sm]. *)
Definition result_at (i : Z) : Z := off_results ly + i * sizeof_result ly.

Definition sm_result_id (sm : list byte) (i : Z) : option Z :=
  option_map (to_signed 32)
    (load_uint (host_order ly) sm (result_at i + off_res_id ly) width_res_id).

Definition sm_result_score (sm : list byte) (i : Z) : option Z :=
  load_uint (host_order ly) sm (result_at i + off_res_score ly) width_double.

(** Lines 107-113: one turn of the inner loop. *)
Definition push_result (sm : list byte) (i : Z) : M unit :=
  lua_createtable 2 0;;
  id <- lift (sm_result_id sm i);;
  lua_pushnumber (num_of_int id);;
  lua_rawseti (-2) 1;;
  sc <- lift (sm_result_score sm i);;
  lua_pushnumber (num_of_bits sc);;
  lua_rawseti (-2) 2;;
  lua_rawseti (-2) (to_signed 32 (guint32 (i + 1))).

(** [for (i = 0; i < n; i ++)]: [todo] counts the turns left, [n - i]. *)
Fixpoint for_results (sm : list byte) (todo : nat) (i : Z) : M unit :=
  match todo with
  | O => ret tt
  | S todo' => push_result sm i;; for_results sm todo' (guint32 (i + 1))
  end.

(** Lines 101-125: the body of [DL_FOREACH]. *)
Definition call_script (ctx : log_helper_ctx) (sm : list byte) (n : Z)
  (sc : rspamd_worker_lua_script) : M unit :=
  lua_rawgeti_registry (cbref sc);;
  score <- lift (sm_score sm);;
  lua_pushnumber (num_of_bits score);;
  required <- lift (sm_required_score sm);;
  lua_pushnumber (num_of_bits required);;
  lua_createtable (to_signed 32 n) 0;;
  for_results sm (Z.to_nat n) 0;;
  lua_newuserdata;;
  store_userdata (cfg ctx);;
  rspamd_lua_setclass "rspamd{config}" (-1);;
  settings <- lift (sm_settings_id sm);;
  lua_pushnumber (num_of_int settings);;
  status <- lua_pcall 5 0 0;;
  if negb (status =? 0) then
    diag <- lua_tostring (-1);;
    msg (err_handler diag);;
    lua_pop 1
  else ret tt.

Fixpoint DL_FOREACH {A} (l : list A) (body : A -> M unit) : M unit :=
  match l with
  | [] => ret tt
  | a :: tl => body a;; DL_FOREACH tl body
  end.

Definition rspamd_log_helper_read (ctx : log_helper_ctx) (x : recv)
  : M unit :=
  rb <- read x sizeof_buf;;
  let (r, buf) := rb : Z * list byte in
  if r >=? to_signed 64 (sizeof_sum ly) then
    n <- lift (load_uint (host_order ly) buf 0 width_count);;
    let available := size_t (r - sizeof_sum ly) / sizeof_result ly in
    if negb (n =? available) then
      msg (warn_bad_length n available)
    else
      let sm := firstn (Z.to_nat r) buf in
      DL_FOREACH (scripts ctx) (call_script ctx sm n)
  else if r =? -1 then
    e <- gets errno_var;;
    msg (warn_read e)
  else ret tt.

Definition syscall (s : sys_event) : M unit :=
  modify (fun w => add_syscall w s).

(** [event_set] with [EV_READ | EV_PERSIST], then [event_add]. *)
Definition event_set_add (fd : Z) (persist : bool) : M unit :=
  modify (fun w =>
    set_log_ev w {| ev_fd := fd; ev_persist := persist; ev_added := true |}).

Definition event_del : M unit :=
  modify (fun w =>
    set_log_ev w {| ev_fd := ev_fd (log_ev w);
                    ev_persist := ev_persist (log_ev w);
                    ev_added := false |}).

Definition rspamd_log_helper_reply_handler (ctx : log_helper_ctx) : M unit :=
  syscall (sys_close (snd (pair ctx)));;
  msg info_start_waiting;;
  event_set_add (fst (pair ctx)) true.

(** Modelled from the spec: [rspamd_srv_send_command] is defined in
    libserver/rspamd_control.c, which is not among the sources.  It sends
    the command with the attached descriptor over the control channel; the
    acknowledgment comes later through the event loop. *)
Definition rspamd_srv_send_command (attached_fd : Z) : M unit :=
  syscall (sys_srv_send_command attached_fd);;
  modify (fun w => set_reply_pending w true).

(** One notification of libevent's loop.  An event that was not set with
    EV_PERSIST is removed before its callback runs. *)
Definition deliver (ctx : log_helper_ctx) (nt : notification) : M unit :=
  match nt with
  | SrvReply =>
      pending <- gets reply_pending;;
      if pending : bool then
        modify (fun w => set_reply_pending w false);;
        rspamd_log_helper_reply_handler ctx
      else ret tt
  | Readable x =>
      ev <- gets log_ev;;
      if ev_added ev then
        (if ev_persist ev then ret tt else event_del);;
        rspamd_log_helper_read ctx x
      else ret tt
  end.

(** [event_base_loop (ev_base, 0)] over the notifications that arrive
    before the loop is asked to end. *)
Fixpoint event_base_loop (ctx : log_helper_ctx) (ns : list notification)
  : M unit :=
  match ns with
  | [] => ret tt
  | nt :: tl => deliver ctx nt;; event_base_loop ctx tl
  end.

Definition socketpair (h : host) (t : sock_type) : M Z :=
  syscall (sys_socketpair t (socketpair_ret h t));;
  (if socketpair_ret h t =? -1
   then modify (fun w => set_errno w (socketpair_errno h t))
   else ret tt);;
  ret (socketpair_ret h t).

(** [exit] ends the process; it is the last action on every path. *)
Definition exit (status : Z) : M Z :=
  syscall (sys_exit status);; ret status.

Definition start_log_helper (h : host) (worker : rspamd_worker) : M Z :=
  syscall sys_prepare_worker;;
  r <- (if HAVE_SOCK_SEQPACKET h
        then socketpair h SOCK_SEQPACKET
        else ret (-1));;
  failed <- (if r =? -1
             then r2 <- socketpair h SOCK_DGRAM;; ret (r2 =? -1)
             else ret false);;
  if failed : bool then
    e <- gets errno_var;;
    msg (err_socketpair e);;
    exit EXIT_SUCCESS
  else
    let used := if r =? -1 then SOCK_DGRAM else SOCK_SEQPACKET in
    let ctx := {| cfg := srv_cfg worker;
                  scripts := cf_scripts worker;
                  pair := socketpair_fds h used |} in
    syscall sys_lock_start_mtx;;
    rspamd_srv_send_command (snd (pair ctx));;
    syscall sys_unlock_start_mtx;;
    syscall sys_event_base_loop;;
    event_base_loop ctx (incoming h);;
    syscall (sys_close (fst (pair ctx)));;
    syscall sys_block_signals;;
    syscall sys_log_close;;
    exit EXIT_SUCCESS.

(** *** What a frame says and what a handler is given

    The reading of a frame that the statements below use: the fields at
    their offsets, and the argument list the callback builds from them. *)

Definition peek (m : list byte) (off len : Z) : Z :=
  host_uint (host_order ly) (firstn (Z.to_nat len) (skipn (Z.to_nat off) m)).

(** The count a frame announces: its first four bytes. *)
Definition announced (frame : list byte) : Z := peek frame 0 width_count.

Record ScoreEvent := {
  score : Z;                         (* bits of the double *)
  required_score : Z;                (* bits of the double *)
  settings_id : Z;
  symbol_results : list (Z * Z)      (* id, bits of the score *)
}.

Definition wire_symbol (frame : list byte) (i : Z) : Z * Z :=
  (to_signed 32 (peek frame (result_at i + off_res_id ly) width_res_id),
   peek frame (result_at i + off_res_score ly) width_double).

Definition wire_symbols (frame : list byte) (n : nat) : list (Z * Z) :=
  map (fun i => wire_symbol frame (Z.of_nat i)) (seq 0 n).

Definition wire_event (frame : list byte) (n : Z) : ScoreEvent := {|
  score := peek frame (off_score ly) width_double;
  required_score := peek frame (off_required_score ly) width_double;
  settings_id := peek frame (off_settings_id ly) width_settings_id;
  symbol_results := wire_symbols frame (Z.to_nat n)
|}.

Definition lua_symbol (p : Z * Z) : lua_value :=
  LTable [(1, LNumber (num_of_int (fst p))); (2, LNumber (num_of_bits (snd p)))].

(** The array [vs] as a Lua table whose first key is [k]. *)
Fixpoint lua_array_from (k : Z) (vs : list lua_value)
  : list (Z * lua_value) :=
  match vs with
  | [] => []
  | v :: tl => (k, v) :: lua_array_from (k + 1) tl
  end.

Definition handler_args (config : Z) (ev : ScoreEvent) : list lua_value :=
  [ LNumber (num_of_bits (score ev));
    LNumber (num_of_bits (required_score ev));
    LTable (lua_array_from 1 (map lua_symbol (symbol_results ev)));
    LUserdata (Some config) (Some "rspamd{config}"%string);
    LNumber (num_of_int (settings_id ev)) ].

(** One protected call of the handler [sc] with [args] on a stack that is
    left as it was; a failure adds its diagnostic to the log. *)
Definition invoke (args : list lua_value) (sc : rspamd_worker_lua_script)
  (w : world) : world :=
  let f := LRegistryValue (cbref sc) in
  let (e', res) := protected_call (engine w) f args in
  let w' := set_call w (stack w) e'
              {| callee := f; call_args := args; call_error := res |} in
  match res with
  | None => w'
  | Some err => add_log w' (err_handler err)
  end.

Definition fan_out (args : list lua_value)
  (l : list rspamd_worker_lua_script) (w : world) : world :=
  fold_left (fun w sc => invoke args sc w) l w.

(** The frame passes lines 87 and 90. *)
Definition accepted (frame : list byte) : bool :=
  let r := Z.of_nat (length frame) in
  (sizeof_sum ly <=? r)
  && (announced frame =? (r - sizeof_sum ly) / sizeof_result ly).

(** The protected calls [fan_out] makes, threading the engine. *)
Fixpoint fan_out_records (args : list lua_value)
  (l : list rspamd_worker_lua_script) (e : E) : list call_record :=
  match l with
  | [] => []
  | sc :: tl =>
      let f := LRegistryValue (cbref sc) in
      let (e', res) := protected_call e f args in
      {| callee := f; call_args := args; call_error := res |}
      :: fan_out_records args tl e'
  end.

(** The log lines a run of protected calls leaves. *)
Definition diagnostics (cs : list call_record) : list log_entry :=
  flat_map (fun c => match call_error c with
                     | Some err => [err_handler err]
                     | None => []
                     end) cs.

Definition is_call_to (ref : Z) (c : call_record) : bool :=
  match callee c with
  | LRegistryValue ref' => ref' =? ref
  | _ => false
  end.

(** How often the handler in registry slot [ref] was called. *)
Definition calls_to (ref : Z) (cs : list call_record) : nat :=
  length (filter (is_call_to ref) cs).

(** The arguments a frame that passed the checks is dispatched with. *)
Definition frame_args (ctx : log_helper_ctx) (frame : list byte)
  : list lua_value :=
  handler_args (cfg ctx) (wire_event frame (announced frame)).

(** What [read] leaves of a message in [buf]. *)
Definition received (payload : list byte) : list byte :=
  firstn (Z.to_nat sizeof_buf) payload.

(** One turn of the callback in closed form; [read_total] in the facts
    below proves that [rspamd_log_helper_read] computes it. *)
Definition after_read (ctx : log_helper_ctx) (x : recv) (w : world) : world :=
  match x with
  | ReadError e => add_log (set_errno w e) (warn_read e)
  | Eof => w
  | Datagram p =>
      let got := received p in
      let r := Z.of_nat (length got) in
      let available := (r - sizeof_sum ly) / sizeof_result ly in
      if r <? sizeof_sum ly then w
      else if announced got =? available
      then fan_out (frame_args ctx got) (scripts ctx) w
      else add_log w (warn_bad_length (announced got) available)
  end.

(** The ordered mode was not compiled in or its [socketpair] failed. *)
Definition seqpacket_failed (h : host) : bool :=
  negb (HAVE_SOCK_SEQPACKET h) || (socketpair_ret h SOCK_SEQPACKET =? -1).

(** The spec's lifecycle of the loop, read off the world. *)
Inductive loop_state :=
| NotStarted | WaitingForRegistration | Running | Stopped.

Definition exited (w : world) : bool :=
  existsb (fun s => match s with sys_exit _ => true | _ => false end)
    (syscalls w).

Definition state_of (w : world) : loop_state :=
  if exited w then Stopped
  else if ev_added (log_ev w) then Running
  else if reply_pending w then WaitingForRegistration
  else NotStarted.

End Worker.

Arguments world : clear implicits.
Arguments M : clear implicits.

End LogHelper.

(** ** A concrete host for examples *)

Module Demo.
Import Mem Wire Lua Sys LogHelper.

(** An engine that counts the calls it ran; the handlers kept in odd
    registry slots raise. *)
#[export] Instance parity_engine : LuaEngine nat := {|
  protected_call e f args :=
    (S e,
     match f with
     | LRegistryValue ref =>
         if Z.odd ref then Some (LString "handler failed") else None
     | _ => Some (LString "attempt to call a non-function value")
     end)
|}.

Definition byte_of_Z (z : Z) : byte :=
  match Byte.of_N (Z.to_N (z mod 256)) with
  | Some b => b
  | None => Byte.x00
  end.

Fixpoint le_bytes (width : nat) (z : Z) : list byte :=
  match width with
  | O => []
  | S w => byte_of_Z z :: le_bytes w (z / 256)
  end.

(** A frame as a peer on x86-64 writes it. *)
Definition frame_header (count settings score required : Z) : list byte :=
  le_bytes 4 count ++ le_bytes 4 settings
  ++ le_bytes 8 score ++ le_bytes 8 required.

Definition frame_result (id score : Z) : list byte :=
  le_bytes 4 id ++ le_bytes 4 0 ++ le_bytes 8 score.

Definition idle : world nat := {|
  stack := [];
  engine := O;
  calls := [];
  log := [];
  errno_var := EAGAIN;
  log_ev := {| ev_fd := 0; ev_persist := false; ev_added := false |};
  reply_pending := false;
  syscalls := []
|}.

(** The worker once the supervisor has answered: the read event is added
    with EV_PERSIST. *)
Definition running : world nat := {|
  stack := [];
  engine := O;
  calls := [];
  log := [];
  errno_var := EAGAIN;
  log_ev := {| ev_fd := 7; ev_persist := true; ev_added := true |};
  reply_pending := false;
  syscalls := []
|}.

Definition two_scripts : log_helper_ctx := {|
  cfg := 4096;
  scripts := [ {| cbref := 1 |}; {| cbref := 2 |} ];
  pair := (7, 8)
|}.

(** Two results, ids 5 and -1; 24 + 2 * 16 = 56 bytes. *)
Definition frame_two : list byte :=
  frame_header 2 9 100 200 ++ frame_result 5 50 ++ frame_result (-1) 60.

(** The same frame followed by one stray byte: 57 bytes. *)
Definition frame_two_trailing : list byte := frame_two ++ [Byte.x00].

(** Three results announced, two present. *)
Definition frame_three_announced : list byte :=
  frame_header 3 9 100 200 ++ frame_result 5 50 ++ frame_result 6 60.

(** No results: the bare header. *)
Definition frame_empty : list byte := frame_header 0 9 100 200.

(** Three bytes, less than any header. *)
Definition frame_stub : list byte := [Byte.x01; Byte.x00; Byte.x00].

(** 63 results: 24 + 63 * 16 = 1032 bytes, eight more than [buf] holds. *)
Definition frame_oversized : list byte :=
  frame_header 63 9 100 200 ++ concat (repeat (frame_result 5 50) 63).

Definition failing_host : host := {|
  HAVE_SOCK_SEQPACKET := true;
  socketpair_ret := fun _ => -1;
  socketpair_errno := fun _ => EAFNOSUPPORT;
  socketpair_fds := fun _ => (0, 0);
  incoming := [SrvReply; Readable (Datagram frame_two)]
|}.

Definition dgram_host : host := {|
  HAVE_SOCK_SEQPACKET := true;
  socketpair_ret := fun t => match t with
                             | SOCK_SEQPACKET => -1
                             | SOCK_DGRAM => 0
                             end;
  socketpair_errno := fun _ => EPROTONOSUPPORT;
  socketpair_fds := fun _ => (7, 8);
  incoming := [SrvReply; Readable (Datagram frame_two)]
|}.

Definition demo_worker : rspamd_worker := {|
  srv_cfg := 4096;
  cf_scripts := [ {| cbref := 1 |}; {| cbref := 2 |} ]
|}.

End Demo.

(** ** The Lua accessors of text parts and mime parts

    Shallow embedding of [src/lua/lua_mimepart.c].  A C function called
    from Lua sees its arguments at the indices 1, 2, ... of its stack frame
    and pushes its results on top; the frame is a list, first argument
    first.  A function returns the number of its results, raises a Lua
    error, or is undefined (it dereferences a null pointer). *)

Module MimePart.

(** The structures of message.h, which is not among the sources, with the
    fields the accessors read.  A pointer that may be NULL is an option. *)
Record GByteArray := { data : list byte; len : Z }.

Record GArray := { garray_len : Z }.

Record content_type := {
  media_type : option string;
  media_subtype : option string
}.

Record mime_part := {
  mp_content : option GByteArray;
  mp_type : option content_type;
  mp_filename : option string;
  raw_headers : Z                     (* GHashTable * *)
}.

Record mime_text_part := {
  flags : Z;
  content : option GByteArray;
  orig : option GByteArray;
  nlines : Z;
  normalized_words : option GArray;
  html : option Z;                    (* struct html_content * *)
  lang_code : option string;
  mimepart : option mime_part         (* part->mime_part *)
}.

(** What a userdata block holds. *)
Inductive block :=
| blk_fresh                                              (* just allocated *)
| blk_textpart (p : option mime_text_part)   (* struct mime_text_part ** *)
| blk_mimepart (p : option mime_part)             (* struct mime_part ** *)
| blk_html (p : Z)                             (* struct html_content ** *)
| blk_text (start : list byte) (length : Z) (own : bool).
                                                (* struct rspamd_lua_text *)

Inductive value :=
| VNil
| VBoolean (b : bool)
| VNumber (z : Z)
| VString (s : string)
| VUserdata (metatable : option string) (b : block)
| VOther (tag : Z).                  (* a table, a function, a thread *)

Inductive lua_error :=
| bad_argument (narg : Z) (expected : string).

Inductive result (A : Type) :=
| Ok (a : A) (frame : list value)
| Raise (e : lua_error).

Arguments Ok {A} a frame.
Arguments Raise {A} e.

Definition L (A : Type) : Type := list value -> option (result A).

Definition ret {A} (a : A) : L A := fun st => Some (Ok a st).

Definition bind {A B} (m : L A) (k : A -> L B) : L B :=
  fun st => match m st with
            | Some (Ok a st') => k a st'
            | Some (Raise e) => Some (Raise e)
            | None => None
            end.

Definition raise {A} (e : lua_error) : L A := fun _ => Some (Raise e).

(** Reading through a pointer: undefined when it is NULL. *)
Definition deref {A} (p : option A) : L A :=
  fun st => match p with Some a => Some (Ok a st) | None => None end.

Definition FALSE : Z := 0.

(** A C integer used as a condition. *)
Definition truth (z : Z) : bool := negb (z =? 0).

Definition index (st : list value) (i : Z) : option value :=
  if 1 <=? i then nth_error st (Z.to_nat (i - 1)) else None.

Definition push (v : value) : L unit := fun st => Some (Ok tt (st ++ [v])).

Definition lua_pushnil : L unit := push VNil.
Definition lua_pushboolean (b : Z) : L unit := push (VBoolean (truth b)).
Definition lua_pushnumber (z : Z) : L unit := push (VNumber z).
Definition lua_pushinteger (z : Z) : L unit := push (VNumber z).

(** [lua_pushstring] pushes nil for a NULL string. *)
Definition lua_pushstring (s : option string) : L unit :=
  push (match s with Some s => VString s | None => VNil end).

Definition lua_gettop : L Z := fun st => Some (Ok (Z.of_nat (length st)) st).

Definition lua_toboolean (i : Z) : L bool := fun st =>
  Some (Ok (match index st i with
            | Some (VBoolean b) => b
            | Some VNil => false
            | Some _ => true
            | None => false
            end) st).

(** [luaL_checkudata (L, narg, tname)]: the block of the userdata at
    [narg] when its metatable is the one registered as [tname]; a Lua
    error otherwise.  It never returns NULL. *)
Definition luaL_checkudata (narg : Z) (tname : string) : L block :=
  fun st =>
    match index st narg with
    | Some (VUserdata (Some mt) b) =>
        if String.eqb mt tname then Some (Ok b st)
        else Some (Raise (bad_argument narg tname))
    | _ => Some (Raise (bad_argument narg tname))
    end.

Definition luaL_argcheck (cond : bool) (narg : Z) (extramsg : string)
  : L unit :=
  if cond then ret tt else raise (bad_argument narg extramsg).

Definition lua_newuserdata : L unit := push (VUserdata None blk_fresh).

(** A write through the pointer [lua_newuserdata] returned: the block of
    the userdata on top of the frame. *)
Definition store_block (b : block) : L unit := fun st =>
  match rev st with
  | VUserdata mt _ :: below => Some (Ok tt (rev (VUserdata mt b :: below)))
  | _ => None
  end.

(** Modelled from the spec: [rspamd_lua_setclass] is defined in
    lua/lua_common.c, which is not among the sources; as in the worker it
    is taken to attach the metatable of the named class to the value at
    [objidx] (here always -1, the top) and to leave the frame otherwise as
    it found it. *)
Definition rspamd_lua_setclass (classname : string) (objidx : Z) : L unit :=
  fun st =>
    if objidx =? -1 then
      match rev st with
      | VUserdata _ b :: below =>
          Some (Ok tt (rev (VUserdata (Some classname) b :: below)))
      | _ :: _ => Some (Ok tt st)
      | [] => None
      end
    else None.

Section Accessors.

(** The macros of message.h, the number formatting of the Lua library and
    the helpers of lua_common.c that the accessors use. *)
Variable IS_PART_EMPTY : mime_text_part -> Z.
Variable IS_PART_UTF : mime_text_part -> Z.
Variable IS_PART_HTML : mime_text_part -> Z.
Variable lua_number_fmt : Z -> string.
Variable rspamd_lua_push_header :
  Z -> string -> bool -> bool -> bool -> L Z.
Variable rspamd_lua_class_tostring : L Z.

Notation "x <- m ;; k" := (bind m (fun x => k))
  (at level 61, m at next level, right associativity).
Notation "m ;; k" := (bind m (fun _ => k))
  (at level 61, right associativity).

(** [luaL_checkstring (L, narg)]: a string is returned as it is, a number
    is first turned into a string in place, anything else is an error. *)
Definition luaL_checkstring (narg : Z) : L string := fun st =>
  match index st narg with
  | Some (VString s) => Some (Ok s st)
  | Some (VNumber z) =>
      let s := lua_number_fmt z in
      let pos := Z.to_nat (narg - 1) in
      Some (Ok s (firstn pos st ++ VString s :: skipn (S pos) st))
  | _ => Some (Raise (bad_argument narg "string"))
  end.

Definition lua_check_textpart : L (option mime_text_part) :=
  ud <- luaL_checkudata 1 "rspamd{textpart}";;
  luaL_argcheck true 1 "'textpart' expected";;
  match ud with
  | blk_textpart p => ret p
  | _ => fun _ => None
  end.

Definition lua_check_mimepart : L (option mime_part) :=
  ud <- luaL_checkudata 1 "rspamd{mimepart}";;
  luaL_argcheck true 1 "'mimepart' expected";;
  match ud with
  | blk_mimepart p => ret p
  | _ => fun _ => None
  end.

Definition lua_textpart_is_utf : L Z :=
  part <- lua_check_textpart;;
  match part with
  | None => lua_pushboolean FALSE;; ret 1
  | Some p =>
      if truth (IS_PART_EMPTY p) then lua_pushboolean FALSE;; ret 1
      else lua_pushboolean (IS_PART_UTF p);; ret 1
  end.

Definition lua_textpart_get_content : L Z :=
  part <- lua_check_textpart;;
  match part with
  | None => lua_pushnil;; ret 1
  | Some p =>
      if truth (IS_PART_EMPTY p) then lua_pushnil;; ret 1
      else
        lua_newuserdata;;
        rspamd_lua_setclass "rspamd{text}" (-1);;
        c <- deref (content p);;
        store_block (blk_text (data c) (len c) false);;
        ret 1
  end.

Definition lua_textpart_get_length : L Z :=
  part <- lua_check_textpart;;
  match part with
  | None => lua_pushnil;; ret 1
  | Some p =>
      (if truth (IS_PART_EMPTY p) then lua_pushnumber 0
       else match content p with
            | None => lua_pushnumber 0
            | Some c => lua_pushnumber (len c)
            end);;
      ret 1
  end.

Definition lua_textpart_get_raw_length : L Z :=
  part <- lua_check_textpart;;
  match part with
  | None => lua_pushnil;; ret 1
  | Some p =>
      match orig p with
      | None => lua_pushnumber 0
      | Some o => lua_pushnumber (len o)
      end;;
      ret 1
  end.

Definition lua_textpart_get_lines_count : L Z :=
  part <- lua_check_textpart;;
  match part with
  | None => lua_pushnil;; ret 1
  | Some p =>
      (if truth (IS_PART_EMPTY p) then lua_pushnumber 0
       else lua_pushnumber (nlines p));;
      ret 1
  end.

Definition lua_textpart_get_words_count : L Z :=
  part <- lua_check_textpart;;
  match part with
  | None => lua_pushnil;; ret 1
  | Some p =>
      (if truth (IS_PART_EMPTY p) then lua_pushnumber 0
       else match normalized_words p with
            | None => lua_pushnumber 0
            | Some ws => lua_pushnumber (garray_len ws)
            end);;
      ret 1
  end.

Definition lua_textpart_is_empty : L Z :=
  part <- lua_check_textpart;;
  match part with
  | None => lua_pushnil;; ret 1
  | Some p => lua_pushboolean (IS_PART_EMPTY p);; ret 1
  end.

Definition lua_textpart_is_html : L Z :=
  part <- lua_check_textpart;;
  match part with
  | None => lua_pushnil;; ret 1
  | Some p => lua_pushboolean (IS_PART_HTML p);; ret 1
  end.

Definition lua_textpart_get_html : L Z :=
  part <- lua_check_textpart;;
  match part with
  | None => lua_pushnil;; ret 1
  | Some p =>
      match html p with
      | None => lua_pushnil
      | Some hc =>
          lua_newuserdata;;
          rspamd_lua_setclass "rspamd{html}" (-1);;
          store_block (blk_html hc)
      end;;
      ret 1
  end.

(** [part->lang_code[0] != '\0']: the string is not empty. *)
Definition lua_textpart_get_language : L Z :=
  part <- lua_check_textpart;;
  match part with
  | Some p =>
      match lang_code p with
      | Some (String c rest) => lua_pushstring (Some (String c rest));; ret 1
      | _ => lua_pushnil;; ret 1
      end
  | None => lua_pushnil;; ret 1
  end.

Definition lua_textpart_get_mimepart : L Z :=
  part <- lua_check_textpart;;
  match part with
  | Some p =>
      match mimepart p with
      | Some mp =>
          lua_newuserdata;;
          rspamd_lua_setclass "rspamd{mimepart}" (-1);;
          store_block (blk_mimepart (Some mp));;
          ret 1
      | None => lua_pushnil;; ret 1
      end
  | None => lua_pushnil;; ret 1
  end.

Definition lua_mimepart_get_content : L Z :=
  part <- lua_check_mimepart;;
  match part with
  | None => lua_pushnil;; ret 1
  | Some p =>
      lua_newuserdata;;
      rspamd_lua_setclass "rspamd{text}" (-1);;
      c <- deref (mp_content p);;
      store_block (blk_text (data c) (len c) false);;
      ret 1
  end.

Definition lua_mimepart_get_length : L Z :=
  part <- lua_check_mimepart;;
  match part with
  | None => lua_pushnil;; ret 1
  | Some p =>
      c <- deref (mp_content p);;
      lua_pushinteger (len c);;
      ret 1
  end.

(** The branch compiled without GMIME24, which reads the two strings
    through [part->type]. *)
Definition lua_mimepart_get_type : L Z :=
  part <- lua_check_mimepart;;
  match part with
  | None => lua_pushnil;; lua_pushnil;; ret 2
  | Some p =>
      t <- deref (mp_type p);;
      lua_pushstring (media_type t);;
      lua_pushstring (media_subtype t);;
      ret 2
  end.

Definition lua_mimepart_get_filename : L Z :=
  part <- lua_check_mimepart;;
  match part with
  | None => lua_pushnil;; ret 1
  | Some p =>
      match mp_filename p with
      | None => lua_pushnil;; ret 1
      | Some f => lua_pushstring (Some f);; ret 1
      end
  end.

Definition lua_mimepart_get_header_common (full raw : bool) : L Z :=
  part <- lua_check_mimepart;;
  name <- luaL_checkstring 2;;
  match part with
  | Some p =>
      top <- lua_gettop;;
      strong <- (if top =? 3 then lua_toboolean 3 else ret false);;
      rspamd_lua_push_header (raw_headers p) name strong full raw
  | None => lua_pushnil;; ret 1
  end.

Definition lua_mimepart_get_header_full : L Z :=
  lua_mimepart_get_header_common true true.

Definition lua_mimepart_get_header : L Z :=
  lua_mimepart_get_header_common false false.

Definition lua_mimepart_get_header_raw : L Z :=
  lua_mimepart_get_header_common false true.

Definition textpartlib_m : list (string * L Z) :=
  [ ("is_utf", lua_textpart_is_utf);
    ("get_content", lua_textpart_get_content);
    ("get_length", lua_textpart_get_length);
    ("get_raw_length", lua_textpart_get_raw_length);
    ("get_lines_count", lua_textpart_get_lines_count);
    ("get_words_count", lua_textpart_get_words_count);
    ("is_empty", lua_textpart_is_empty);
    ("is_html", lua_textpart_is_html);
    ("get_html", lua_textpart_get_html);
    ("get_language", lua_textpart_get_language);
    ("get_mimepart", lua_textpart_get_mimepart);
    ("__tostring", rspamd_lua_class_tostring) ]%string.

Definition mimepartlib_m : list (string * L Z) :=
  [ ("get_content", lua_mimepart_get_content);
    ("get_length", lua_mimepart_get_length);
    ("get_type", lua_mimepart_get_type);
    ("get_filename", lua_mimepart_get_filename);
    ("get_header", lua_mimepart_get_header);
    ("get_header_raw", lua_mimepart_get_header_raw);
    ("get_header_full", lua_mimepart_get_header_full);
    ("__tostring", rspamd_lua_class_tostring) ]%string.

(** The method a Lua call [obj:name (...)] reaches. *)
Fixpoint lookup_method (tbl : list (string * L Z)) (name : string)
  : option (L Z) :=
  match tbl with
  | [] => None
  | (n, f) :: tl => if String.eqb n name then Some f else lookup_method tl name
  end.

(** The accessors proper: every entry but [__tostring]. *)
Definition own_methods (tbl : list (string * L Z)) : list (L Z) :=
  map snd (filter (fun e => negb (String.eqb (fst e) "__tostring")) tbl).

(** The function returned [n] results, pushed exactly those on top of its
    arguments and left the arguments as they were. *)
Definition returns (f : L Z) (args pushed : list value) : Prop :=
  f args = Some (Ok (Z.of_nat (length pushed)) (args ++ pushed)).

Definition textpart_object (p : option mime_text_part) : value :=
  VUserdata (Some "rspamd{textpart}"%string) (blk_textpart p).

Definition mimepart_object (p : option mime_part) : value :=
  VUserdata (Some "rspamd{mimepart}"%string) (blk_mimepart p).

Definition text_object (c : GByteArray) : value :=
  VUserdata (Some "rspamd{text}"%string) (blk_text (data c) (len c) false).

(** What [lua_toboolean] makes of a value. *)
Definition lua_truthy (v : value) : bool :=
  match v with
  | VNil => false
  | VBoolean b => b
  | _ => true
  end.

(** The case-sensitivity flag a call with the arguments [extra] after the
    object and the name asks for. *)
Definition strong_of (extra : list value) : bool :=
  match extra with
  | [v] => lua_truthy v
  | _ => false
  end.

(** The part is flagged empty or has a content to point into. *)
Definition content_reachable (p : option mime_text_part) : Prop :=
  match p with
  | Some tp => truth (IS_PART_EMPTY tp) = false -> content tp <> None
  | None => True
  end.

(** No userdata of class [tname] at the first index. *)
Definition not_of_class (tname : string) (args : list value) : Prop :=
  match index args 1 with
  | Some (VUserdata (Some mt) _) => String.eqb mt tname = false
  | _ => True
  end.

End Accessors.

End MimePart.

(** ** Concrete parts for examples *)

Module MimeDemo.
Import MimePart.

(** Flag bits in the manner of message.h: UTF is bit 0, EMPTY bit 2 and
    HTML bit 3. *)
Definition is_part_utf (p : mime_text_part) : Z := Z.land (flags p) 1.
Definition is_part_empty (p : mime_text_part) : Z := Z.land (flags p) 4.
Definition is_part_html (p : mime_text_part) : Z := Z.land (flags p) 8.

Definition number_fmt (z : Z) : string :=
  if z =? 0 then "0"%string else "1"%string.

(** A stand-in for [rspamd_lua_push_header] that shows the flags it was
    given. *)
Definition push_header (hdrs : Z) (name : string) (strong full raw : bool)
  : L Z :=
  bind (push (VString name)) (fun _ =>
  bind (push (VBoolean strong)) (fun _ => ret 2)).

Definition class_tostring : L Z :=
  bind (push (VString "rspamd{class}")) (fun _ => ret 1).

Definition hello : GByteArray :=
  {| data := [Byte.x68; Byte.x69]; len := 2 |}.

Definition attachment : mime_part := {|
  mp_content := Some hello;
  mp_type := Some {| media_type := Some "text"%string;
                     media_subtype := Some "plain"%string |};
  mp_filename := None;
  raw_headers := 77
|}.

(** A UTF-8 part of two bytes. *)
Definition plain_part : mime_text_part := {|
  flags := 1;
  content := Some hello;
  orig := Some hello;
  nlines := 1;
  normalized_words := Some {| garray_len := 1 |};
  html := None;
  lang_code := Some "en"%string;
  mimepart := Some attachment
|}.

(** A part flagged empty that still carries the other fields. *)
Definition empty_part : mime_text_part := {|
  flags := 5;
  content := Some hello;
  orig := Some hello;
  nlines := 3;
  normalized_words := Some {| garray_len := 2 |};
  html := Some 9;
  lang_code := Some ""%string;
  mimepart := None
|}.

(** A part that is not flagged empty and has no content. *)
Definition hollow_part : mime_text_part := {|
  flags := 1;
  content := None;
  orig := None;
  nlines := 0;
  normalized_words := None;
  html := None;
  lang_code := None;
  mimepart := None
|}.

End MimeDemo.

(** ** Readings of hosts, notifications and frames used further on *)

Module Observe.
Import Mem Wire Lua Sys LogHelper.

Definition is_reply (nt : notification) : bool :=
  match nt with SrvReply => true | Readable _ => false end.

(** The socket type whose pair ends up in [ctx->pair]. *)
Definition used_type (h : host) : sock_type :=
  if seqpacket_failed h then SOCK_DGRAM else SOCK_SEQPACKET.

(** The [socketpair] calls of lines 165-168, with their results. *)
Definition attempts_trace (h : host) : list sys_event :=
  (if HAVE_SOCK_SEQPACKET h
   then [sys_socketpair SOCK_SEQPACKET (socketpair_ret h SOCK_SEQPACKET)]
   else [])
  ++ (if seqpacket_failed h
      then [sys_socketpair SOCK_DGRAM (socketpair_ret h SOCK_DGRAM)]
      else []).

(** Line 168 does not take the exit. *)
Definition established (h : host) : bool :=
  negb (seqpacket_failed h && (socketpair_ret h SOCK_DGRAM =? -1)).

(** The read hands the registry a frame: what arrived passes lines 87
    and 90. *)
Definition dispatches (ly : layout) (x : recv) : bool :=
  match x with
  | Datagram p => accepted ly (received p)
  | Eof => false
  | ReadError _ => false
  end.

(** The header of a frame and the results it announces, without what
    follows them. *)
Definition exact_part (ly : layout) (frame : list byte) : list byte :=
  firstn (Z.to_nat (sizeof_sum ly + announced ly frame * sizeof_result ly))
    frame.

(** The (id, score) pair that the bytes of one result encode: the id is
    the 32-bit two's complement number at the id's offset inside the
    result, the score the 64 bits at the score's offset. *)
Definition result_pair (ly : layout) (chunk : list byte) : Z * Z :=
  (to_signed 32
     (host_uint (host_order ly)
        (firstn 4 (skipn (Z.to_nat (off_res_id ly)) chunk))),
   host_uint (host_order ly)
     (firstn 8 (skipn (Z.to_nat (off_res_score ly)) chunk))).

(** The Lua array a handler is to see for a run of encoded results: at
    the keys [k], [k + 1], ... one table [{id, score}] per result, in the
    order of the run. *)
Fixpoint results_table (ly : layout) (k : Z) (chunks : list (list byte))
  : list (Z * lua_value) :=
  match chunks with
  | [] => []
  | ch :: tl =>
      (k, LTable [ (1, LNumber (num_of_int (fst (result_pair ly ch))));
                   (2, LNumber (num_of_bits (snd (result_pair ly ch)))) ])
      :: results_table ly (k + 1) tl
  end.

(** The three accessors of mime part headers. *)
Definition is_header_accessor (name : string) : bool :=
  String.eqb name "get_header"
  || String.eqb name "get_header_raw"
  || String.eqb name "get_header_full".

(** The engine after the handlers of [l] ran one after the other. *)
Definition engine_after {E : Type} `{LuaEngine E} (args : list lua_value)
  (l : list rspamd_worker_lua_script) (e : E) : E :=
  fold_left (fun e sc => fst (protected_call e (LRegistryValue (cbref sc))
                                args)) l e.

End Observe.

(** ** Facts about the embedding *)

Module Facts.
Import Mem Wire Lua Sys LogHelper.

Lemma field_inside_spec (off width total : Z) :
  field_inside off width total = true <-> 0 <= off /\ off + width <= total.
Proof.
  unfold field_inside. rewrite andb_true_iff, !Z.leb_le. tauto.
Qed.

Lemma layout_ok_facts (ly : layout) :
  layout_ok ly = true -> layout_facts ly.
Proof.
  unfold layout_ok, width_count, width_double, width_settings_id,
    width_res_id.
  rewrite !andb_true_iff, !field_inside_spec, Z.leb_le, !Z.ltb_lt.
  intros [[[[[[[[? ?] ?] ?] ?] ?] ?] ?] ?].
  constructor; lia.
Qed.

Lemma to_signed_small (w z : Z) : z < 2 ^ (w - 1) -> to_signed w z = z.
Proof.
  intros Hz. unfold to_signed.
  destruct (z <? 2 ^ (w - 1)) eqn:Hlt; [reflexivity|].
  apply Z.ltb_ge in Hlt. lia.
Qed.

Lemma guint32_small (z : Z) : 0 <= z < 2 ^ 32 -> guint32 z = z.
Proof. intros Hz. unfold guint32. apply Z.mod_small. exact Hz. Qed.

(** The key [i + 1] of line 113 neither wraps as a [guint32] nor turns
    negative as an [int]. *)
Lemma next_key (i : Z) :
  0 <= i < 2 ^ 31 - 1 -> to_signed 32 (guint32 (i + 1)) = i + 1.
Proof.
  intros Hi. rewrite guint32_small by lia.
  apply to_signed_small. change (2 ^ (32 - 1)) with (2 ^ 31). lia.
Qed.

Lemma size_t_small (z : Z) : 0 <= z < 2 ^ 64 -> size_t z = z.
Proof. intros Hz. unfold size_t. apply Z.mod_small. exact Hz. Qed.

Lemma le_uint_bounds (bs : list byte) :
  0 <= le_uint bs < 256 ^ Z.of_nat (length bs).
Proof.
  induction bs as [|b tl IH].
  - simpl. lia.
  - cbn [le_uint length]. rewrite Nat2Z.inj_succ, Z.pow_succ_r by lia.
    pose proof (Byte.to_N_bounded b) as Hb.
    assert (0 <= Z.of_N (Byte.to_N b) <= 255) by lia.
    lia.
Qed.

Lemma host_uint_bounds (bo : byte_order) (bs : list byte) :
  0 <= host_uint bo bs < 256 ^ Z.of_nat (length bs).
Proof.
  destruct bo; simpl.
  - apply le_uint_bounds.
  - rewrite <- length_rev. apply le_uint_bounds.
Qed.

Lemma load_inside (m : list byte) (off len : Z) :
  0 <= off -> 0 <= len -> off + len <= Z.of_nat (length m) ->
  load m off len = Some (firstn (Z.to_nat len) (skipn (Z.to_nat off) m)).
Proof.
  intros Ho Hl Hm. unfold load.
  destruct (0 <=? off) eqn:E1; [|apply Z.leb_gt in E1; lia].
  destruct (0 <=? len) eqn:E2; [|apply Z.leb_gt in E2; lia].
  destruct (off + len <=? Z.of_nat (length m)) eqn:E3;
    [reflexivity|apply Z.leb_gt in E3; lia].
Qed.

Lemma load_outside (m : list byte) (off len : Z) :
  Z.of_nat (length m) < off + len -> load m off len = None.
Proof.
  intros Hm. unfold load.
  destruct (off + len <=? Z.of_nat (length m)) eqn:E3.
  - apply Z.leb_le in E3. lia.
  - rewrite andb_false_r. reflexivity.
Qed.

Lemma load_length (m : list byte) (off len : Z) (bs : list byte) :
  load m off len = Some bs -> Z.of_nat (length bs) = len.
Proof.
  unfold load.
  destruct (0 <=? off) eqn:E1; [|discriminate].
  destruct (0 <=? len) eqn:E2; [|discriminate].
  destruct (off + len <=? Z.of_nat (length m)) eqn:E3; [|discriminate].
  apply Z.leb_le in E1, E2, E3. simpl. intros [= <-].
  rewrite length_firstn, length_skipn. lia.
Qed.

Section Generic.

Context {E : Type} `{LuaEngine E}.
Variable ly : layout.

Lemma load_uint_peek (m : list byte) (off len : Z) :
  0 <= off -> 0 <= len -> off + len <= Z.of_nat (length m) ->
  load_uint (host_order ly) m off len = Some (peek ly m off len).
Proof.
  intros Ho Hl Hm. unfold load_uint, peek.
  rewrite load_inside by assumption. reflexivity.
Qed.

Lemma peek_bounds (m : list byte) (off len : Z) :
  0 <= len -> 0 <= peek ly m off len < 256 ^ len.
Proof.
  intros Hl. unfold peek.
  pose proof (host_uint_bounds (host_order ly)
                (firstn (Z.to_nat len) (skipn (Z.to_nat off) m))) as Hb.
  assert (Z.of_nat (length (firstn (Z.to_nat len) (skipn (Z.to_nat off) m)))
          <= len) as Hlen.
  { rewrite length_firstn. lia. }
  assert (256 ^ Z.of_nat (length (firstn (Z.to_nat len)
                                    (skipn (Z.to_nat off) m)))
          <= 256 ^ len).
  { apply Z.pow_le_mono_r; lia. }
  lia.
Qed.

Lemma announced_bounds (frame : list byte) :
  0 <= announced ly frame < 2 ^ 32.
Proof.
  unfold announced, width_count.
  pose proof (peek_bounds frame 0 4 ltac:(lia)) as Hb.
  change (256 ^ 4) with (2 ^ 32) in Hb. exact Hb.
Qed.

Hypothesis ly_ok : layout_facts ly.

Lemma table_put_fresh (t : list (Z * lua_value)) (k : Z) (v : lua_value) :
  (forall kv, In kv t -> fst kv <> k) -> table_put t k v = t ++ [(k, v)].
Proof.
  induction t as [|[k' v'] tl IH]; intros Hfresh; simpl.
  - reflexivity.
  - destruct (k' =? k) eqn:Hk.
    + apply Z.eqb_eq in Hk. exfalso.
      apply (Hfresh (k', v')); [left; reflexivity | exact Hk].
    + rewrite IH; [reflexivity|].
      intros kv Hin. apply Hfresh. right. exact Hin.
Qed.

Lemma lua_array_from_keys (k : Z) (vs : list lua_value) (kv : Z * lua_value) :
  In kv (lua_array_from k vs) -> k <= fst kv < k + Z.of_nat (length vs).
Proof.
  revert k. induction vs as [|v tl IH]; intros k Hin; simpl in *.
  - contradiction.
  - destruct Hin as [<- | Hin].
    + simpl. lia.
    + apply IH in Hin. lia.
Qed.

Lemma lua_array_from_app (k : Z) (vs ws : list lua_value) :
  lua_array_from k (vs ++ ws)
  = lua_array_from k vs ++ lua_array_from (k + Z.of_nat (length vs)) ws.
Proof.
  revert k. induction vs as [|v tl IH]; intros k.
  - simpl. rewrite Z.add_0_r. reflexivity.
  - cbn [app lua_array_from length]. rewrite IH.
    replace (k + 1 + Z.of_nat (length tl)) with (k + Z.of_nat (S (length tl)))
      by lia.
    reflexivity.
Qed.

Lemma lua_array_from_length (k : Z) (vs : list lua_value) :
  length (lua_array_from k vs) = length vs.
Proof.
  revert k. induction vs as [|v tl IH]; intros k; simpl; [|rewrite IH];
    reflexivity.
Qed.

Lemma rawset_next (vs : list lua_value) (p : Z * Z) :
  table_rawset (lua_array_from 1 vs) (Z.of_nat (length vs) + 1)
    (lua_symbol p)
  = lua_array_from 1 (vs ++ [lua_symbol p]).
Proof.
  unfold table_rawset. simpl is_nil. cbv iota.
  rewrite table_put_fresh.
  - rewrite lua_array_from_app. cbn [lua_array_from].
    rewrite (Z.add_comm 1). reflexivity.
  - intros kv Hin. apply lua_array_from_keys in Hin. lia.
Qed.

(** The bytes of result [i] lie inside a frame that holds [i + 1] results. *)
Lemma result_inside (sm : list byte) (i : Z) :
  0 <= i ->
  sizeof_sum ly + (i + 1) * sizeof_result ly <= Z.of_nat (length sm) ->
  0 <= result_at ly i
  /\ result_at ly i + sizeof_result ly <= Z.of_nat (length sm).
Proof.
  intros Hi Hlen. unfold result_at.
  destruct ly_ok. nia.
Qed.

Lemma push_result_ok (sm : list byte) (i : Z) (vs st : list lua_value)
  (w : world E) :
  stack w = LTable (lua_array_from 1 vs) :: st ->
  i = Z.of_nat (length vs) ->
  i < 2 ^ 31 - 1 ->
  sizeof_sum ly + (i + 1) * sizeof_result ly <= Z.of_nat (length sm) ->
  push_result ly sm i w
  = Some (tt, set_stack w
                (LTable (lua_array_from 1
                           (vs ++ [lua_symbol (wire_symbol ly sm i)])) :: st)).
Proof.
  intros Hst Hi Hsmall Hlen.
  assert (0 <= i) as Hi0 by lia.
  destruct (result_inside sm i Hi0 Hlen) as [Hlo Hhi].
  pose proof (lf_res_id ly ly_ok) as Hid.
  pose proof (lf_res_score ly ly_ok) as Hsc.
  unfold push_result, bind, lift, sm_result_id, sm_result_score,
    width_res_id, width_double.
  rewrite (load_uint_peek sm (result_at ly i + off_res_id ly) 4);
    [|lia..].
  rewrite (load_uint_peek sm (result_at ly i + off_res_score ly) 8);
    [|lia..].
  unfold lua_createtable, lua_pushnumber, push, modify, lua_rawseti.
  simpl. rewrite Hst. simpl.
  rewrite next_key by lia.
  unfold set_stack, replace_nth. simpl.
  rewrite <- (rawset_next vs (wire_symbol ly sm i)), <- Hi.
  reflexivity.
Qed.

Lemma lua_pop_one (v : lua_value) (rest : list lua_value) (w : world E) :
  stack w = v :: rest -> lua_pop 1 w = Some (tt, set_stack w rest).
Proof.
  intros Hst. unfold lua_pop. rewrite Hst. cbn [length].
  destruct (1 <=? Z.of_nat (S (length rest))) eqn:Hle.
  - reflexivity.
  - apply Z.leb_gt in Hle. lia.
Qed.

Lemma for_results_ok (sm : list byte) (todo : nat) :
  forall (i : Z) (vs st : list lua_value) (w : world E),
    stack w = LTable (lua_array_from 1 vs) :: st ->
    i = Z.of_nat (length vs) ->
    i + Z.of_nat todo < 2 ^ 31 ->
    sizeof_sum ly + (i + Z.of_nat todo) * sizeof_result ly
      <= Z.of_nat (length sm) ->
    for_results ly sm todo i w
    = Some (tt, set_stack w
                  (LTable (lua_array_from 1
                             (vs ++ map (lua_symbol)
                                      (map (fun j => wire_symbol ly sm
                                                       (Z.of_nat j))
                                         (seq (length vs) todo)))) :: st)).
Proof.
  induction todo as [|todo IH]; intros i vs st w Hst Hi Hsmall Hlen.
  - simpl. rewrite app_nil_r, <- Hst. unfold ret.
    destruct w; reflexivity.
  - cbn [for_results]. unfold bind.
    pose proof (lf_result_pos ly ly_ok) as HS.
    rewrite (push_result_ok sm i vs st w Hst Hi) by nia.
    rewrite guint32_small by lia.
    rewrite (IH (i + 1) (vs ++ [lua_symbol (wire_symbol ly sm i)]) st).
    + cbn [seq map]. rewrite length_app. cbn [length].
      rewrite Nat.add_1_r, <- app_assoc, Hi. reflexivity.
    + reflexivity.
    + rewrite length_app. cbn [length]. lia.
    + lia.
    + nia.
Qed.

Lemma call_script_ok (ctx : log_helper_ctx) (sm : list byte) (n : Z)
  (sc : rspamd_worker_lua_script) (w : world E) :
  0 <= n < 2 ^ 31 ->
  sizeof_sum ly + n * sizeof_result ly <= Z.of_nat (length sm) ->
  call_script ly ctx sm n sc w
  = Some (tt, invoke (handler_args (cfg ctx) (wire_event ly sm n)) sc w).
Proof.
  intros Hn Hlen.
  pose proof (lf_result_pos ly ly_ok) as HS.
  pose proof (lf_score ly ly_ok) as Hsc.
  pose proof (lf_required ly ly_ok) as Hrq.
  pose proof (lf_settings ly ly_ok) as Hset.
  assert (sizeof_sum ly <= Z.of_nat (length sm)) as Hhdr by nia.
  unfold call_script, bind, lift, sm_score, sm_required_score,
    sm_settings_id, width_double, width_settings_id.
  rewrite (load_uint_peek sm (off_score ly) 8); [|lia..].
  rewrite (load_uint_peek sm (off_required_score ly) 8); [|lia..].
  rewrite (load_uint_peek sm (off_settings_id ly) 4); [|lia..].
  unfold lua_rawgeti_registry, lua_pushnumber, lua_createtable, push, modify.
  rewrite (for_results_ok sm (Z.to_nat n) 0 []
             (LNumber (num_of_bits (peek ly sm (off_required_score ly) 8))
              :: LNumber (num_of_bits (peek ly sm (off_score ly) 8))
              :: LRegistryValue (cbref sc) :: stack w));
    [|reflexivity|reflexivity|lia|rewrite Z2Nat.id; lia].
  unfold invoke, handler_args, wire_event, wire_symbols, width_double,
    width_settings_id.
  unfold lua_newuserdata, store_userdata, rspamd_lua_setclass, lua_pcall,
    push, modify.
  generalize (Z.to_nat n) as count. intros count.
  change (Z.to_nat 5) with 5%nat.
  change (Z.to_nat 1) with 1%nat.
  change (Z.to_nat (- -1 - 1)) with 0%nat.
  cbn -[protected_call lua_array_from map seq peek].
  destruct (protected_call (engine w) (LRegistryValue (cbref sc)) _)
    as [e' [err|]];
    unfold lua_tostring, msg, modify, ret, bind;
    cbn -[lua_array_from map seq peek lua_pop]; [|reflexivity].
  erewrite lua_pop_one by reflexivity. reflexivity.
Qed.

Lemma DL_FOREACH_ok (ctx : log_helper_ctx) (sm : list byte) (n : Z)
  (l : list rspamd_worker_lua_script) :
  0 <= n < 2 ^ 31 ->
  sizeof_sum ly + n * sizeof_result ly <= Z.of_nat (length sm) ->
  forall w : world E,
    DL_FOREACH l (call_script ly ctx sm n) w
    = Some (tt, fan_out (handler_args (cfg ctx) (wire_event ly sm n)) l w).
Proof.
  intros Hn Hlen. induction l as [|sc tl IH]; intros w.
  - reflexivity.
  - cbn [DL_FOREACH]. unfold bind.
    rewrite call_script_ok by assumption. rewrite IH. reflexivity.
Qed.

Lemma received_length (p : list byte) :
  0 <= Z.of_nat (length (received p)) <= sizeof_buf.
Proof.
  unfold received, sizeof_buf. rewrite length_firstn. lia.
Qed.

Lemma received_short (p : list byte) :
  Z.of_nat (length p) <= sizeof_buf -> received p = p.
Proof.
  unfold received, sizeof_buf. intros Hp. apply firstn_all2. lia.
Qed.

Lemma received_long (p : list byte) :
  sizeof_buf <= Z.of_nat (length p) ->
  Z.of_nat (length (received p)) = sizeof_buf.
Proof.
  unfold received, sizeof_buf. intros Hp. rewrite length_firstn. lia.
Qed.

(** The callback is total: on every input it returns, and what it leaves
    is [after_read]. *)
Lemma read_total (ctx : log_helper_ctx) (x : recv) (w : world E) :
  rspamd_log_helper_read ly ctx x w = Some (tt, after_read ly ctx x w).
Proof.
  pose proof (lf_count ly ly_ok) as Hc.
  pose proof (lf_sum_small ly ly_ok) as Hs.
  pose proof (lf_result_pos ly ly_ok) as HS.
  assert (to_signed 64 (sizeof_sum ly) = sizeof_sum ly) as Hcast.
  { apply to_signed_small. change (2 ^ (64 - 1)) with (2 ^ 63). lia. }
  unfold rspamd_log_helper_read. rewrite Hcast.
  destruct x as [p | | e]; unfold read, bind, ret, modify, gets, msg;
    cbn [after_read].
  - fold (received p).
    pose proof (received_length p) as Hr. unfold sizeof_buf in Hr.
    set (got := received p) in *.
    set (r := Z.of_nat (length got)) in *.
    rewrite Z.geb_leb.
    destruct (r <? sizeof_sum ly) eqn:Hlt.
    + apply Z.ltb_lt in Hlt.
      destruct (sizeof_sum ly <=? r) eqn:Hle;
        [apply Z.leb_le in Hle; lia|].
      destruct (r =? -1) eqn:Hm; [apply Z.eqb_eq in Hm; lia|].
      reflexivity.
    + apply Z.ltb_ge in Hlt.
      destruct (sizeof_sum ly <=? r) eqn:Hle;
        [|apply Z.leb_gt in Hle; lia].
      unfold lift, width_count.
      rewrite (load_uint_peek got 0 4); [|lia..].
      change (peek ly got 0 4) with (announced ly got).
      rewrite size_t_small by lia.
      set (available := (r - sizeof_sum ly) / sizeof_result ly).
      destruct (announced ly got =? available) eqn:Hn; cbn [negb].
      * apply Z.eqb_eq in Hn.
        assert (0 <= available) by (apply Z.div_pos; lia).
        assert (sizeof_result ly * available <= r - sizeof_sum ly)
          by (apply Z.mul_div_le; lia).
        assert (available <= r - sizeof_sum ly).
        { apply Z.div_le_upper_bound; nia. }
        unfold r at 1. rewrite Nat2Z.id.
        rewrite firstn_all.
        rewrite DL_FOREACH_ok; [reflexivity| lia | fold r; nia].
      * reflexivity.
  - rewrite Z.geb_leb.
    destruct (sizeof_sum ly <=? 0) eqn:Hle; [apply Z.leb_le in Hle; lia|].
    reflexivity.
  - rewrite Z.geb_leb.
    destruct (sizeof_sum ly <=? -1) eqn:Hle; [apply Z.leb_le in Hle; lia|].
    reflexivity.
Qed.

(** *** The fan-out *)

Lemma invoke_frame (args : list lua_value) (sc : rspamd_worker_lua_script)
  (w : world E) :
  stack (invoke args sc w) = stack w
  /\ errno_var (invoke args sc w) = errno_var w
  /\ log_ev (invoke args sc w) = log_ev w
  /\ reply_pending (invoke args sc w) = reply_pending w
  /\ syscalls (invoke args sc w) = syscalls w.
Proof.
  unfold invoke.
  destruct (protected_call (engine w) (LRegistryValue (cbref sc)) args)
    as [e' [err|]]; simpl; repeat split; reflexivity.
Qed.

Lemma fan_out_frame (args : list lua_value)
  (l : list rspamd_worker_lua_script) :
  forall w : world E,
    stack (fan_out args l w) = stack w
    /\ errno_var (fan_out args l w) = errno_var w
    /\ log_ev (fan_out args l w) = log_ev w
    /\ reply_pending (fan_out args l w) = reply_pending w
    /\ syscalls (fan_out args l w) = syscalls w.
Proof.
  induction l as [|sc tl IH]; intros w.
  - simpl. repeat split; reflexivity.
  - cbn [fan_out fold_left]. fold (fan_out args tl (invoke args sc w)).
    destruct (IH (invoke args sc w)) as (-> & -> & -> & -> & ->).
    apply invoke_frame.
Qed.

Lemma fan_out_trace (args : list lua_value)
  (l : list rspamd_worker_lua_script) :
  forall w : world E,
    calls (fan_out args l w)
    = calls w ++ fan_out_records args l (engine w)
    /\ log (fan_out args l w)
      = log w ++ diagnostics (fan_out_records args l (engine w)).
Proof.
  induction l as [|sc tl IH]; intros w.
  - simpl. rewrite !app_nil_r. split; reflexivity.
  - cbn [fan_out fold_left fan_out_records].
    fold (fan_out args tl (invoke args sc w)).
    destruct (IH (invoke args sc w)) as [-> ->].
    unfold invoke.
    destruct (protected_call (engine w) (LRegistryValue (cbref sc)) args)
      as [e' [err|]]; simpl; rewrite <- !app_assoc; split; reflexivity.
Qed.

Lemma fan_out_records_shape (args : list lua_value)
  (l : list rspamd_worker_lua_script) :
  forall e : E,
    map (fun c => (callee c, call_args c)) (fan_out_records args l e)
    = map (fun sc => (LRegistryValue (cbref sc), args)) l.
Proof.
  induction l as [|sc tl IH]; intros e.
  - reflexivity.
  - cbn [fan_out_records].
    destruct (protected_call e (LRegistryValue (cbref sc)) args) as [e' res].
    cbn [map callee call_args]. rewrite IH. reflexivity.
Qed.

Lemma fan_out_records_length (args : list lua_value)
  (l : list rspamd_worker_lua_script) (e : E) :
  length (fan_out_records args l e) = length l.
Proof.
  rewrite <- (length_map (fun c => (callee c, call_args c))),
    fan_out_records_shape, length_map.
  reflexivity.
Qed.

(** *** One turn of the callback *)

Lemma after_read_frame (ctx : log_helper_ctx) (x : recv) (w : world E) :
  stack (after_read ly ctx x w) = stack w
  /\ log_ev (after_read ly ctx x w) = log_ev w
  /\ reply_pending (after_read ly ctx x w) = reply_pending w
  /\ syscalls (after_read ly ctx x w) = syscalls w.
Proof.
  destruct x as [p | | e]; cbn [after_read].
  - destruct (_ <? _); [repeat split; reflexivity|].
    destruct (_ =? _); [|repeat split; reflexivity].
    destruct (fan_out_frame (frame_args ly ctx (received p)) (scripts ctx) w)
      as (? & ? & ? & ? & ?).
    repeat split; assumption.
  - repeat split; reflexivity.
  - repeat split; reflexivity.
Qed.

Lemma running_inv (w : world E) :
  state_of w = Running -> ev_added (log_ev w) = true.
Proof.
  unfold state_of. destruct (exited w); [discriminate|].
  destruct (ev_added (log_ev w)); [reflexivity|].
  destruct (reply_pending w); discriminate.
Qed.

Lemma after_read_state (ctx : log_helper_ctx) (x : recv) (w : world E) :
  state_of (after_read ly ctx x w) = state_of w.
Proof.
  destruct (after_read_frame ctx x w) as (_ & Hev & Hrp & Hsys).
  unfold state_of, exited. rewrite Hev, Hrp, Hsys. reflexivity.
Qed.

Lemma deliver_readable (ctx : log_helper_ctx) (x : recv) (w : world E) :
  ev_added (log_ev w) = true ->
  ev_persist (log_ev w) = true ->
  deliver ly ctx (Readable x) w = Some (tt, after_read ly ctx x w).
Proof.
  intros Ha Hp. unfold deliver, bind, gets. rewrite Ha, Hp.
  unfold ret. apply read_total.
Qed.

(** The loop over a run of readiness notifications. *)
Lemma event_base_loop_readable (ctx : log_helper_ctx) (xs : list recv) :
  forall w : world E,
    ev_added (log_ev w) = true ->
    ev_persist (log_ev w) = true ->
    event_base_loop ly ctx (map Readable xs) w
    = Some (tt, fold_left (fun w x => after_read ly ctx x w) xs w).
Proof.
  induction xs as [|x tl IH]; intros w Ha Hp.
  - reflexivity.
  - cbn [map event_base_loop fold_left]. unfold bind.
    rewrite deliver_readable by assumption.
    destruct (after_read_frame ctx x w) as (_ & Hev & _).
    apply IH; rewrite Hev; assumption.
Qed.

Lemma after_read_accepted (ctx : log_helper_ctx) (frame : list byte)
  (w : world E) :
  Z.of_nat (length frame) <= sizeof_buf ->
  sizeof_sum ly <= Z.of_nat (length frame) ->
  announced ly frame
  = (Z.of_nat (length frame) - sizeof_sum ly) / sizeof_result ly ->
  after_read ly ctx (Datagram frame) w
  = fan_out (frame_args ly ctx frame) (scripts ctx) w.
Proof.
  intros Hbuf Hhdr Hn. cbn [after_read].
  rewrite (received_short frame Hbuf).
  destruct (Z.of_nat (length frame) <? sizeof_sum ly) eqn:Hlt;
    [apply Z.ltb_lt in Hlt; lia|].
  rewrite <- Hn, Z.eqb_refl. reflexivity.
Qed.

Lemma after_read_rejected (ctx : log_helper_ctx) (frame : list byte)
  (w : world E) :
  Z.of_nat (length frame) <= sizeof_buf ->
  sizeof_sum ly <= Z.of_nat (length frame) ->
  announced ly frame
  <> (Z.of_nat (length frame) - sizeof_sum ly) / sizeof_result ly ->
  after_read ly ctx (Datagram frame) w
  = add_log w (warn_bad_length (announced ly frame)
                 ((Z.of_nat (length frame) - sizeof_sum ly)
                  / sizeof_result ly)).
Proof.
  intros Hbuf Hhdr Hn. cbn [after_read].
  rewrite (received_short frame Hbuf).
  destruct (Z.of_nat (length frame) <? sizeof_sum ly) eqn:Hlt;
    [apply Z.ltb_lt in Hlt; lia|].
  destruct (announced ly frame =? _) eqn:Heq;
    [apply Z.eqb_eq in Heq; contradiction|].
  reflexivity.
Qed.

Lemma after_read_short (ctx : log_helper_ctx) (payload : list byte)
  (w : world E) :
  Z.of_nat (length (received payload)) < sizeof_sum ly ->
  after_read ly ctx (Datagram payload) w = w.
Proof.
  intros Hlt. cbn [after_read].
  apply Z.ltb_lt in Hlt. rewrite Hlt. reflexivity.
Qed.

(** Reading the table the way a handler does. *)
Lemma lua_array_rawget (vs : list lua_value) :
  forall (k i : Z) (v : lua_value),
    0 <= i ->
    nth_error vs (Z.to_nat i) = Some v ->
    table_rawget (lua_array_from k vs) (k + i) = v.
Proof.
  induction vs as [|v0 tl IH]; intros k i v Hi Hnth.
  - destruct (Z.to_nat i); discriminate.
  - cbn [lua_array_from table_rawget].
    destruct (Z.eq_dec i 0) as [-> | Hne].
    + rewrite Z.add_0_r, Z.eqb_refl. simpl in Hnth. congruence.
    + destruct (k =? k + i) eqn:Hk; [apply Z.eqb_eq in Hk; lia|].
      replace (k + i) with (k + 1 + (i - 1)) by lia.
      apply IH; [lia|].
      replace (Z.to_nat i) with (S (Z.to_nat (i - 1))) in Hnth by lia.
      exact Hnth.
Qed.

Lemma wire_symbols_nth (frame : list byte) (n : nat) (i : Z) :
  0 <= i < Z.of_nat n ->
  nth_error (wire_symbols ly frame n) (Z.to_nat i)
  = Some (wire_symbol ly frame i).
Proof.
  intros Hi. unfold wire_symbols.
  rewrite nth_error_map, nth_error_seq.
  destruct (Nat.ltb_spec (Z.to_nat i) n) as [_ | Hge]; [|lia].
  simpl. rewrite Z2Nat.id by lia. reflexivity.
Qed.

Lemma wire_symbols_length (frame : list byte) (n : nat) :
  length (wire_symbols ly frame n) = n.
Proof. unfold wire_symbols. rewrite length_map, length_seq. reflexivity. Qed.

Lemma lua_array_from_nth (vs : list lua_value) :
  forall (k : Z) (j : nat) (v : lua_value),
    nth_error vs j = Some v ->
    nth_error (lua_array_from k vs) j = Some (k + Z.of_nat j, v).
Proof.
  induction vs as [|v0 tl IH]; intros k j v Hj.
  - destruct j; discriminate.
  - destruct j as [|j].
    + simpl in *. injection Hj as <-. rewrite Z.add_0_r. reflexivity.
    + cbn [lua_array_from nth_error] in *.
      rewrite (IH (k + 1) j v Hj). f_equal. f_equal. lia.
Qed.

Lemma diagnostics_in (cs : list call_record) (c : call_record)
  (err : lua_value) :
  In c cs -> call_error c = Some err -> In (err_handler err) (diagnostics cs).
Proof.
  intros Hin Herr. unfold diagnostics. apply in_flat_map.
  exists c. split; [exact Hin|]. rewrite Herr. left. reflexivity.
Qed.

Lemma fan_out_records_nth (args : list lua_value)
  (l : list rspamd_worker_lua_script) (e : E) (j : nat)
  (sc : rspamd_worker_lua_script) :
  nth_error l j = Some sc ->
  exists c,
    nth_error (fan_out_records args l e) j = Some c
    /\ callee c = LRegistryValue (cbref sc)
    /\ call_args c = args.
Proof.
  intros Hj.
  pose proof (fan_out_records_shape args l e) as Hshape.
  apply (f_equal (fun m => nth_error m j)) in Hshape.
  rewrite !nth_error_map, Hj in Hshape.
  destruct (nth_error (fan_out_records args l e) j) as [c|]; [|discriminate].
  simpl in Hshape. injection Hshape as Hc Ha.
  exists c. repeat split; assumption.
Qed.

Lemma calls_to_app (ref : Z) (a b : list call_record) :
  calls_to ref (a ++ b) = (calls_to ref a + calls_to ref b)%nat.
Proof.
  unfold calls_to. rewrite filter_app, length_app. reflexivity.
Qed.

Lemma calls_to_fan_out (args : list lua_value)
  (l : list rspamd_worker_lua_script) (ref : Z) :
  forall e : E,
    calls_to ref (fan_out_records args l e)
    = count_occ Z.eq_dec (map cbref l) ref.
Proof.
  induction l as [|sc tl IH]; intros e.
  - reflexivity.
  - cbn [fan_out_records map count_occ].
    destruct (protected_call e (LRegistryValue (cbref sc)) args) as [e' res].
    unfold calls_to in *. cbn [filter is_call_to callee].
    destruct (Z.eq_dec (cbref sc) ref) as [Heq | Hne].
    + apply Z.eqb_eq in Heq. rewrite Heq. cbn [length]. rewrite IH.
      reflexivity.
    + apply Z.eqb_neq in Hne. rewrite Hne. apply IH.
Qed.

(** A run of accepted frames: the calls made, in order. *)
Lemma frames_trace (ctx : log_helper_ctx) (frames : list (list byte)) :
  Forall (fun f => Z.of_nat (length f) <= sizeof_buf
                   /\ accepted ly f = true) frames ->
  forall w : world E,
  exists cs,
    calls (fold_left (fun w x => after_read ly ctx x w)
             (map Datagram frames) w)
    = calls w ++ cs
    /\ map (fun c => (callee c, call_args c)) cs
       = flat_map (fun f => map (fun sc => (LRegistryValue (cbref sc),
                                           frame_args ly ctx f))
                             (scripts ctx)) frames
    /\ forall ref,
         calls_to ref cs
         = (length frames
            * count_occ Z.eq_dec (map cbref (scripts ctx)) ref)%nat.
Proof.
  induction 1 as [|f tl [Hbuf Hacc] _ IH]; intros w.
  - exists []. cbn. rewrite app_nil_r. repeat split; reflexivity.
  - cbn [map fold_left].
    unfold accepted in Hacc. apply andb_true_iff in Hacc as [Hhdr Hn].
    apply Z.leb_le in Hhdr. apply Z.eqb_eq in Hn.
    rewrite after_read_accepted by assumption.
    destruct (IH (fan_out (frame_args ly ctx f) (scripts ctx) w))
      as (cs & Hcalls & Hshape & Hcount).
    destruct (fan_out_trace (frame_args ly ctx f) (scripts ctx) w)
      as [Hfan _].
    exists (fan_out_records (frame_args ly ctx f) (scripts ctx) (engine w)
            ++ cs).
    split; [rewrite Hcalls, Hfan, app_assoc; reflexivity|].
    split.
    + cbn [flat_map]. rewrite map_app, fan_out_records_shape, Hshape.
      reflexivity.
    + intros ref. rewrite calls_to_app, calls_to_fan_out, Hcount.
      cbn [length]. lia.
Qed.

(** *** The loop and the start of the worker *)

Lemma deliver_total (ctx : log_helper_ctx) (nt : notification)
  (w : world E) :
  exists w' extra,
    deliver ly ctx nt w = Some (tt, w')
    /\ syscalls w' = syscalls w ++ extra
    /\ socketpair_attempts extra = []
    /\ registration_attempts extra = 0%nat.
Proof.
  destruct nt as [|x]; unfold deliver, bind, gets.
  - destruct (reply_pending w).
    + eexists. exists [sys_close (snd (pair ctx))].
      split; [reflexivity|]. repeat split; reflexivity.
    + exists w, []. rewrite app_nil_r. repeat split; reflexivity.
  - destruct (ev_added (log_ev w)).
    + destruct (ev_persist (log_ev w)); unfold ret, event_del, modify;
        rewrite read_total; eexists; exists [];
        (split; [reflexivity|]); rewrite app_nil_r;
        (split; [|split; reflexivity]).
      * apply after_read_frame.
      * match goal with
        | |- syscalls (after_read _ _ _ ?w0) = _ =>
            destruct (after_read_frame ctx x w0) as (_ & _ & _ & ->)
        end.
        reflexivity.
    + exists w, []. rewrite app_nil_r. repeat split; reflexivity.
Qed.

Lemma event_base_loop_total (ctx : log_helper_ctx)
  (ns : list notification) :
  forall w : world E,
  exists w' extra,
    event_base_loop ly ctx ns w = Some (tt, w')
    /\ syscalls w' = syscalls w ++ extra
    /\ socketpair_attempts extra = []
    /\ registration_attempts extra = 0%nat.
Proof.
  induction ns as [|nt tl IH]; intros w.
  - exists w, []. rewrite app_nil_r. repeat split; reflexivity.
  - cbn [event_base_loop]. unfold bind.
    destruct (deliver_total ctx nt w) as (w1 & x1 & -> & Hs1 & Hp1 & Hr1).
    destruct (IH w1) as (w2 & x2 & -> & Hs2 & Hp2 & Hr2).
    exists w2, (x1 ++ x2).
    split; [reflexivity|].
    split; [rewrite Hs2, Hs1, app_assoc; reflexivity|].
    split.
    + unfold socketpair_attempts in *. rewrite flat_map_app, Hp1, Hp2.
      reflexivity.
    + unfold registration_attempts in *.
      rewrite filter_app, length_app, Hr1, Hr2. reflexivity.
Qed.

(** Cutting a message at [sizeof buf] keeps the count it announces. *)
Lemma announced_received (p : list byte) :
  announced ly (received p) = announced ly p.
Proof.
  unfold announced, peek, received, width_count, sizeof_buf.
  change (Z.to_nat 0) with 0%nat. cbn [skipn].
  rewrite firstn_firstn. f_equal.
Qed.

(** *** A frame as a header followed by encoded results *)

Lemma skipn_past {A} (l1 l2 : list A) (k : nat) :
  skipn (length l1 + k) (l1 ++ l2) = skipn k l2.
Proof.
  rewrite skipn_app, skipn_all2 by lia.
  replace (length l1 + k - length l1)%nat with k by lia. reflexivity.
Qed.

Lemma skipn_chunks (size : nat) (chunks : list (list byte)) :
  Forall (fun ch => length ch = size) chunks ->
  forall (k : nat) (ch : list byte) (post : list byte),
    nth_error chunks k = Some ch ->
    exists after,
      skipn (k * size) (concat chunks ++ post) = ch ++ after.
Proof.
  induction 1 as [|c0 tl Hc0 _ IH]; intros k ch post Hk.
  - destruct k; discriminate.
  - destruct k as [|k].
    + injection Hk as <-. exists (concat tl ++ post).
      cbn [Nat.mul skipn concat]. rewrite app_assoc. reflexivity.
    + cbn [nth_error] in Hk. destruct (IH k ch post Hk) as (after & Hafter).
      exists after. cbn [concat Nat.mul]. rewrite <- app_assoc.
      rewrite <- Hc0 at 1. rewrite skipn_past. exact Hafter.
Qed.

Lemma window_in_chunk (ch after : list byte) (off len : nat) :
  (off + len <= length ch)%nat ->
  firstn len (skipn off (ch ++ after)) = firstn len (skipn off ch).
Proof.
  intros Hfit. rewrite skipn_app, firstn_app, length_skipn.
  replace (len - (length ch - off))%nat with 0%nat by lia.
  cbn [firstn]. apply app_nil_r.
Qed.

(** A field of the [k]-th result of a frame is the field of the [k]-th
    chunk. *)
Lemma peek_in_chunk (pre post : list byte) (chunks : list (list byte))
  (k : nat) (ch : list byte) (off len : Z) :
  Z.of_nat (length pre) = off_results ly ->
  Forall (fun ch => Z.of_nat (length ch) = sizeof_result ly) chunks ->
  nth_error chunks k = Some ch ->
  0 <= off -> 0 <= len -> off + len <= sizeof_result ly ->
  peek ly (pre ++ concat chunks ++ post)
    (result_at ly (Z.of_nat k) + off) len
  = host_uint (host_order ly)
      (firstn (Z.to_nat len) (skipn (Z.to_nat off) ch)).
Proof.
  intros Hpre Hsize Hk Ho Hl Hfit.
  pose proof (lf_result_pos ly ly_ok) as HS.
  unfold peek, result_at. f_equal.
  assert (Forall (fun ch => length ch = Z.to_nat (sizeof_result ly)) chunks)
    as Hsize'.
  { eapply Forall_impl; [|exact Hsize]. cbv beta. intros c Hc. lia. }
  destruct (skipn_chunks _ chunks Hsize' k ch post Hk) as (after & Hafter).
  replace (Z.to_nat (off_results ly + Z.of_nat k * sizeof_result ly + off))
    with (length pre + (Z.to_nat off + k * Z.to_nat (sizeof_result ly)))%nat.
  - rewrite skipn_past, <- skipn_skipn, Hafter.
    apply window_in_chunk.
    rewrite Forall_forall in Hsize.
    specialize (Hsize ch (nth_error_In _ _ Hk)). lia.
  - rewrite <- Hpre.
    rewrite !Z2Nat.inj_add, Z2Nat.inj_mul, !Nat2Z.id by nia. lia.
Qed.

Lemma wire_symbol_chunk (pre post : list byte) (chunks : list (list byte))
  (k : nat) (ch : list byte) :
  Z.of_nat (length pre) = off_results ly ->
  Forall (fun ch => Z.of_nat (length ch) = sizeof_result ly) chunks ->
  nth_error chunks k = Some ch ->
  wire_symbol ly (pre ++ concat chunks ++ post) (Z.of_nat k)
  = Observe.result_pair ly ch.
Proof.
  intros Hpre Hsize Hk.
  pose proof (lf_res_id ly ly_ok). pose proof (lf_res_score ly ly_ok).
  unfold wire_symbol, Observe.result_pair, width_res_id, width_double.
  rewrite !(peek_in_chunk pre post chunks k ch) by (assumption || lia).
  reflexivity.
Qed.

Lemma wire_symbols_chunks (pre post : list byte)
  (chunks : list (list byte)) :
  Z.of_nat (length pre) = off_results ly ->
  Forall (fun ch => Z.of_nat (length ch) = sizeof_result ly) chunks ->
  wire_symbols ly (pre ++ concat chunks ++ post) (length chunks)
  = map (Observe.result_pair ly) chunks.
Proof.
  intros Hpre Hsize. apply nth_error_ext. intros k.
  unfold wire_symbols. rewrite !nth_error_map, nth_error_seq.
  destruct (Nat.ltb_spec k (length chunks)) as [Hlt | Hge].
  - destruct (nth_error chunks k) as [ch|] eqn:Hk.
    + cbn [option_map Nat.add].
      rewrite (wire_symbol_chunk pre post chunks k ch) by assumption.
      reflexivity.
    + apply nth_error_None in Hk. lia.
  - apply nth_error_None in Hge. rewrite Hge. reflexivity.
Qed.

Lemma results_table_array (chunks : list (list byte)) :
  forall k,
    lua_array_from k (map lua_symbol (map (Observe.result_pair ly) chunks))
    = Observe.results_table ly k chunks.
Proof.
  induction chunks as [|ch tl IH]; intros k.
  - reflexivity.
  - cbn [map lua_array_from Observe.results_table]. rewrite IH.
    reflexivity.
Qed.

Lemma results_table_rawget (chunks : list (list byte)) :
  forall (k : Z) (i : nat) (ch : list byte),
    nth_error chunks i = Some ch ->
    table_rawget (Observe.results_table ly k chunks) (k + Z.of_nat i)
    = LTable [ (1, LNumber (num_of_int
                              (fst (Observe.result_pair ly ch))));
               (2, LNumber (num_of_bits
                              (snd (Observe.result_pair ly ch)))) ].
Proof.
  induction chunks as [|c0 tl IH]; intros k i ch Hi.
  - destruct i; discriminate.
  - cbn [Observe.results_table table_rawget]. destruct i as [|i].
    + injection Hi as <-. rewrite Z.add_0_r, Z.eqb_refl. reflexivity.
    + destruct (k =? k + Z.of_nat (S i)) eqn:Hk;
        [apply Z.eqb_eq in Hk; lia|].
      replace (k + Z.of_nat (S i)) with (k + 1 + Z.of_nat i) by lia.
      apply IH. exact Hi.
Qed.

Lemma results_table_length (chunks : list (list byte)) :
  forall k, length (Observe.results_table ly k chunks) = length chunks.
Proof.
  induction chunks as [|c0 tl IH]; intros k; cbn; [|rewrite IH];
    reflexivity.
Qed.

End Generic.

End Facts.


(** ** The claims *)

Import Mem Wire Lua Sys LogHelper Facts Demo.
Import Observe.

(** C1, as amended.  A received buffer that holds at least a header is
    judged by the integer quotient
    [(length - header_size) / symbol_result_size] alone.  When the
    announced count differs from it, the frame is discarded: the callback
    returns, calls no handler and logs one bad-length warning with the
    announced and the available count.  When the two agree, the frame is
    dispatched to the registry, whatever the remainder. *)
Theorem C1_quotient_alone_decides {E : Type} `{LuaEngine E}
  (ly : layout) (ctx : log_helper_ctx) (frame : list byte) (w : world E) :
  layout_ok ly = true ->
  Z.of_nat (length frame) <= sizeof_buf ->
  sizeof_sum ly <= Z.of_nat (length frame) ->
  (announced ly frame
   <> (Z.of_nat (length frame) - sizeof_sum ly) / sizeof_result ly ->
   exists w',
     rspamd_log_helper_read ly ctx (Datagram frame) w = Some (tt, w')
     /\ calls w' = calls w
     /\ log w' = log w ++ [warn_bad_length (announced ly frame)
                             ((Z.of_nat (length frame) - sizeof_sum ly)
                              / sizeof_result ly)])
  /\ (announced ly frame
      = (Z.of_nat (length frame) - sizeof_sum ly) / sizeof_result ly ->
      exists w' cs,
        rspamd_log_helper_read ly ctx (Datagram frame) w = Some (tt, w')
        /\ calls w' = calls w ++ cs
        /\ map (fun c => (callee c, call_args c)) cs
           = map (fun sc => (LRegistryValue (cbref sc),
                             frame_args ly ctx frame)) (scripts ctx)
        /\ log w' = log w ++ diagnostics cs).
Proof.
  intros Hly Hbuf Hhdr. apply layout_ok_facts in Hly. split; intros Hn.
  - eexists. split; [apply (read_total ly Hly)|].
    rewrite after_read_rejected by assumption.
    split; reflexivity.
  - eexists. eexists. split; [apply (read_total ly Hly)|].
    rewrite after_read_accepted by assumption.
    destruct (fan_out_trace (frame_args ly ctx frame) (scripts ctx) w)
      as [Hcalls Hlog].
    split; [exact Hcalls|].
    split; [apply fan_out_records_shape|exact Hlog].
Qed.

Lemma C1_witness :
  (announced x86_64 frame_three_announced
   <> (Z.of_nat (length frame_three_announced) - sizeof_sum x86_64)
      / sizeof_result x86_64 ->
   exists w',
     rspamd_log_helper_read x86_64 two_scripts
       (Datagram frame_three_announced) running = Some (tt, w')
     /\ calls w' = calls running
     /\ log w' = log running
                 ++ [warn_bad_length (announced x86_64 frame_three_announced)
                       ((Z.of_nat (length frame_three_announced)
                         - sizeof_sum x86_64) / sizeof_result x86_64)])
  /\ (announced x86_64 frame_three_announced
      = (Z.of_nat (length frame_three_announced) - sizeof_sum x86_64)
        / sizeof_result x86_64 ->
      exists w' cs,
        rspamd_log_helper_read x86_64 two_scripts
          (Datagram frame_three_announced) running = Some (tt, w')
        /\ calls w' = calls running ++ cs
        /\ map (fun c => (callee c, call_args c)) cs
           = map (fun sc => (LRegistryValue (cbref sc),
                             frame_args x86_64 two_scripts
                               frame_three_announced))
               (scripts two_scripts)
        /\ log w' = log running ++ diagnostics cs).
Proof.
  apply (C1_quotient_alone_decides x86_64 two_scripts
           frame_three_announced running).
  - reflexivity.
  - vm_compute. discriminate.
  - vm_compute. discriminate.
Defined.

(** C1, as stated, fails: a buffer with one byte after its two results
    has a remainder, yet both handlers are called and nothing is logged
    beyond the failure of the first handler. *)
Lemma C1_counterexample :
  sizeof_sum x86_64 <= Z.of_nat (length frame_two_trailing)
  /\ (Z.of_nat (length frame_two_trailing) - sizeof_sum x86_64)
       mod sizeof_result x86_64 <> 0
  /\ exists w',
       rspamd_log_helper_read x86_64 two_scripts
         (Datagram frame_two_trailing) running = Some (tt, w')
       /\ map callee (calls w') = [LRegistryValue 1; LRegistryValue 2]
       /\ log w' = [err_handler (LString "handler failed")].
Proof.
  split; [vm_compute; discriminate|].
  split; [vm_compute; discriminate|].
  eexists. split; [vm_compute; reflexivity|].
  split; reflexivity.
Qed.

(** C2.  A frame is written as the bytes before the results, the
    announced number of encoded results, each [symbol_result_size] bytes
    long, and the bytes left up to [header_size] plus the results.  When
    what was received is such a frame, it is accepted: the callback
    returns, every registered handler is called, and the third argument of
    each call is the table that holds, at the keys 1, 2, ... in the order
    of the results in the frame, the [{id, score}] that each result's own
    bytes encode, and nothing else. *)
Theorem C2_exact_frame_delivers_results {E : Type} `{LuaEngine E}
  (ly : layout) (ctx : log_helper_ctx) (pre post : list byte)
  (chunks : list (list byte)) (w : world E) :
  let frame := pre ++ concat chunks ++ post in
  layout_ok ly = true ->
  Z.of_nat (length pre) = off_results ly ->
  Z.of_nat (length post) = sizeof_sum ly - off_results ly ->
  Forall (fun ch => Z.of_nat (length ch) = sizeof_result ly) chunks ->
  Z.of_nat (length frame) <= sizeof_buf ->
  Z.of_nat (length frame)
  = sizeof_sum ly + announced ly frame * sizeof_result ly ->
  exists w' cs results,
    rspamd_log_helper_read ly ctx (Datagram frame) w = Some (tt, w')
    /\ calls w' = calls w ++ cs
    /\ map callee cs
       = map (fun sc => LRegistryValue (cbref sc)) (scripts ctx)
    /\ Forall (fun c => nth_error (call_args c) 2 = Some (LTable results)) cs
    /\ Z.of_nat (length results) = announced ly frame
    /\ length results = length chunks
    /\ results = results_table ly 1 chunks
    /\ forall i ch,
         nth_error chunks i = Some ch ->
         table_rawget results (Z.of_nat i + 1)
         = LTable [ (1, LNumber (num_of_int (fst (result_pair ly ch))));
                    (2, LNumber (num_of_bits (snd (result_pair ly ch)))) ].
Proof.
  intros frame Hly Hpre Hpost Hsize Hbuf Hlen. apply layout_ok_facts in Hly.
  pose proof (lf_result_pos ly Hly) as HS.
  assert (Z.of_nat (length frame)
          = sizeof_sum ly + Z.of_nat (length chunks) * sizeof_result ly)
    as Hframe.
  { unfold frame. rewrite !length_app, !Nat2Z.inj_add, Hpre, Hpost.
    assert (Z.of_nat (length (concat chunks))
            = Z.of_nat (length chunks) * sizeof_result ly) as ->.
    { clear -Hsize. induction Hsize as [|c tl Hc _ IH].
      - reflexivity.
      - cbn [concat length]. rewrite length_app, Nat2Z.inj_add, IH, Hc.
        lia. }
    lia. }
  assert (announced ly frame = Z.of_nat (length chunks)) as Hn by nia.
  assert (announced ly frame
          = (Z.of_nat (length frame) - sizeof_sum ly) / sizeof_result ly)
    as Hq.
  { rewrite Hlen.
    replace (sizeof_sum ly + announced ly frame * sizeof_result ly
             - sizeof_sum ly)
      with (announced ly frame * sizeof_result ly) by lia.
    rewrite Z.div_mul by lia. reflexivity. }
  exists (after_read ly ctx (Datagram frame) w),
    (fan_out_records (frame_args ly ctx frame) (scripts ctx) (engine w)),
    (results_table ly 1 chunks).
  split; [apply (read_total ly Hly)|].
  rewrite after_read_accepted by (assumption || nia).
  destruct (fan_out_trace (frame_args ly ctx frame) (scripts ctx) w)
    as [Hcalls _].
  split; [exact Hcalls|].
  split.
  { rewrite <- (map_map (fun c => (callee c, call_args c)) fst).
    rewrite fan_out_records_shape, map_map. reflexivity. }
  split.
  { apply Forall_forall. intros c Hin.
    apply (in_map (fun c => (callee c, call_args c))) in Hin.
    rewrite fan_out_records_shape in Hin.
    apply in_map_iff in Hin as (sc & Heq & _).
    injection Heq as _ <-.
    unfold frame_args, handler_args, wire_event. cbn [nth_error].
    cbn [symbol_results]. rewrite Hn, Nat2Z.id.
    unfold frame.
    rewrite (wire_symbols_chunks ly Hly pre post chunks Hpre Hsize).
    rewrite results_table_array. reflexivity. }
  split; [rewrite results_table_length; lia|].
  split; [apply results_table_length|].
  split; [reflexivity|].
  intros i ch Hi. rewrite (Z.add_comm (Z.of_nat i) 1).
  apply results_table_rawget. exact Hi.
Qed.

(** The frame of the witness is the one a peer writes for the results
    (5, 50) and (-1, 60); the table is spelled out. *)
Lemma C2_witness :
  exists w' cs results,
    rspamd_log_helper_read x86_64 two_scripts
      (Datagram (frame_header 2 9 100 200
                 ++ concat [frame_result 5 50; frame_result (-1) 60] ++ []))
      running
    = Some (tt, w')
    /\ calls w' = calls running ++ cs
    /\ map callee cs = [LRegistryValue 1; LRegistryValue 2]
    /\ Forall (fun c => nth_error (call_args c) 2 = Some (LTable results)) cs
    /\ Z.of_nat (length results) = 2
    /\ length results = 2%nat
    /\ results
       = [ (1, LTable [ (1, LNumber (num_of_int 5));
                        (2, LNumber (num_of_bits 50)) ]);
           (2, LTable [ (1, LNumber (num_of_int (-1)));
                        (2, LNumber (num_of_bits 60)) ]) ]
    /\ forall i ch,
         nth_error [frame_result 5 50; frame_result (-1) 60] i = Some ch ->
         table_rawget results (Z.of_nat i + 1)
         = LTable [ (1, LNumber (num_of_int (fst (result_pair x86_64 ch))));
                    (2, LNumber (num_of_bits
                                   (snd (result_pair x86_64 ch)))) ].
Proof.
  apply (C2_exact_frame_delivers_results x86_64 two_scripts
           (frame_header 2 9 100 200)
           [] [frame_result 5 50; frame_result (-1) 60] running).
  - reflexivity.
  - reflexivity.
  - reflexivity.
  - repeat constructor.
  - vm_compute. discriminate.
  - vm_compute. reflexivity.
Defined.

(** C3, as amended.  A message shorter than the header is dropped in
    silence: the callback returns and leaves the world exactly as it was,
    so no handler is called, nothing is logged and the read event stays
    registered. *)
Theorem C3_short_buffer_dropped_silently {E : Type} `{LuaEngine E}
  (ly : layout) (ctx : log_helper_ctx) (payload : list byte) (w : world E) :
  layout_ok ly = true ->
  Z.of_nat (length payload) < sizeof_sum ly ->
  rspamd_log_helper_read ly ctx (Datagram payload) w = Some (tt, w).
Proof.
  intros Hly Hshort. apply layout_ok_facts in Hly.
  rewrite (read_total ly Hly).
  rewrite after_read_short; [reflexivity|].
  unfold received. rewrite length_firstn. lia.
Qed.

Lemma C3_witness :
  rspamd_log_helper_read x86_64 two_scripts (Datagram frame_stub) running
  = Some (tt, running).
Proof.
  apply (C3_short_buffer_dropped_silently x86_64 two_scripts frame_stub
           running).
  - reflexivity.
  - vm_compute. reflexivity.
Defined.

(** C3, as stated, fails: three bytes are less than a header, and the
    callback leaves the log empty instead of adding a warning. *)
Lemma C3_counterexample :
  Z.of_nat (length frame_stub) < sizeof_sum x86_64
  /\ exists w',
       rspamd_log_helper_read x86_64 two_scripts (Datagram frame_stub)
         running = Some (tt, w')
       /\ log w' = [].
Proof.
  split; [vm_compute; reflexivity|].
  eexists. split; [vm_compute; reflexivity|]. reflexivity.
Qed.

(** C4.  While the read event is registered, an accepted frame is handed
    to every handler of the registry.  When the call of the [k]-th handler
    raises, its diagnostic is logged, every later handler is still called
    with the same arguments, the event stays registered and the loop goes
    on to serve whatever arrives next. *)
Theorem C4_failing_handler_is_isolated {E : Type} `{LuaEngine E}
  (ly : layout) (ctx : log_helper_ctx) (frame : list byte)
  (later : list recv) (w : world E) :
  layout_ok ly = true ->
  Z.of_nat (length frame) <= sizeof_buf ->
  accepted ly frame = true ->
  state_of w = Running ->
  ev_persist (log_ev w) = true ->
  exists w' cs,
    deliver ly ctx (Readable (Datagram frame)) w = Some (tt, w')
    /\ calls w' = calls w ++ cs
    /\ log w' = log w ++ diagnostics cs
    /\ (forall k ck err,
          nth_error cs k = Some ck ->
          call_error ck = Some err ->
          In (err_handler err) (log w')
          /\ forall j scj,
               (k < j)%nat ->
               nth_error (scripts ctx) j = Some scj ->
               exists cj,
                 nth_error cs j = Some cj
                 /\ callee cj = LRegistryValue (cbref scj)
                 /\ call_args cj = frame_args ly ctx frame)
    /\ state_of w' = Running
    /\ event_base_loop ly ctx
         (Readable (Datagram frame) :: map Readable later) w
       = Some (tt, fold_left (fun w x => after_read ly ctx x w) later w').
Proof.
  intros Hly Hbuf Hacc Hrun Hp. apply layout_ok_facts in Hly.
  pose proof (running_inv w Hrun) as Ha.
  unfold accepted in Hacc. apply andb_true_iff in Hacc as [Hhdr Hn].
  apply Z.leb_le in Hhdr. apply Z.eqb_eq in Hn.
  set (args := frame_args ly ctx frame).
  exists (fan_out args (scripts ctx) w),
    (fan_out_records args (scripts ctx) (engine w)).
  destruct (fan_out_trace args (scripts ctx) w) as [Hcalls Hlog].
  destruct (fan_out_frame args (scripts ctx) w) as (_ & _ & Hev & _).
  assert (deliver ly ctx (Readable (Datagram frame)) w
          = Some (tt, fan_out args (scripts ctx) w)) as Hstep.
  { rewrite (deliver_readable ly Hly) by assumption.
    rewrite after_read_accepted by assumption. reflexivity. }
  split; [exact Hstep|].
  split; [exact Hcalls|].
  split; [exact Hlog|].
  split.
  { intros k ck err Hk Herr. split.
    - rewrite Hlog. apply in_or_app. right.
      apply (diagnostics_in _ ck); [|exact Herr].
      apply nth_error_In with k. exact Hk.
    - intros j scj _ Hj. apply fan_out_records_nth. exact Hj. }
  split.
  { rewrite <- Hrun, <- (after_read_state ly ctx (Datagram frame) w).
    rewrite after_read_accepted by assumption. reflexivity. }
  cbn [event_base_loop]. unfold bind. rewrite Hstep.
  apply (event_base_loop_readable ly Hly); rewrite Hev; assumption.
Qed.

Lemma C4_witness :
  exists w' cs,
    deliver x86_64 two_scripts (Readable (Datagram frame_two)) running
    = Some (tt, w')
    /\ calls w' = calls running ++ cs
    /\ log w' = log running ++ diagnostics cs
    /\ (forall k ck err,
          nth_error cs k = Some ck ->
          call_error ck = Some err ->
          In (err_handler err) (log w')
          /\ forall j scj,
               (k < j)%nat ->
               nth_error (scripts two_scripts) j = Some scj ->
               exists cj,
                 nth_error cs j = Some cj
                 /\ callee cj = LRegistryValue (cbref scj)
                 /\ call_args cj = frame_args x86_64 two_scripts frame_two)
    /\ state_of w' = Running
    /\ event_base_loop x86_64 two_scripts
         (Readable (Datagram frame_two)
          :: map Readable [Datagram frame_empty]) running
       = Some (tt, fold_left (fun w x => after_read x86_64 two_scripts x w)
                     [Datagram frame_empty] w').
Proof.
  apply (C4_failing_handler_is_isolated x86_64 two_scripts frame_two
           [Datagram frame_empty] running).
  - reflexivity.
  - vm_compute. discriminate.
  - vm_compute. reflexivity.
  - reflexivity.
  - reflexivity.
Defined.

(** C5.  A run of accepted frames, read while the event is registered,
    makes the calls frame by frame in the order of receipt, and within a
    frame handler by handler in the order of the registry, each with the
    arguments of that frame; every registry entry is thus called once per
    frame, whatever the calls raise. *)
Theorem C5_every_handler_once_per_frame {E : Type} `{LuaEngine E}
  (ly : layout) (ctx : log_helper_ctx) (frames : list (list byte))
  (w : world E) :
  layout_ok ly = true ->
  Forall (fun f => Z.of_nat (length f) <= sizeof_buf
                   /\ accepted ly f = true) frames ->
  state_of w = Running ->
  ev_persist (log_ev w) = true ->
  exists w' cs,
    event_base_loop ly ctx (map Readable (map Datagram frames)) w
    = Some (tt, w')
    /\ calls w' = calls w ++ cs
    /\ map (fun c => (callee c, call_args c)) cs
       = flat_map (fun f => map (fun sc => (LRegistryValue (cbref sc),
                                           frame_args ly ctx f))
                             (scripts ctx)) frames
    /\ forall ref,
         calls_to ref cs
         = (length frames
            * count_occ Z.eq_dec (map cbref (scripts ctx)) ref)%nat.
Proof.
  intros Hly Hframes Hrun Hp. apply layout_ok_facts in Hly.
  pose proof (running_inv w Hrun) as Ha.
  destruct (frames_trace ly ctx frames Hframes w)
    as (cs & Hcalls & Hshape & Hcount).
  eexists. exists cs.
  split; [apply (event_base_loop_readable ly Hly); assumption|].
  repeat split; assumption.
Qed.

Lemma C5_witness :
  exists w' cs,
    event_base_loop x86_64 two_scripts
      (map Readable (map Datagram [frame_two; frame_empty; frame_two]))
      running
    = Some (tt, w')
    /\ calls w' = calls running ++ cs
    /\ map (fun c => (callee c, call_args c)) cs
       = flat_map (fun f => map (fun sc => (LRegistryValue (cbref sc),
                                           frame_args x86_64 two_scripts f))
                             (scripts two_scripts))
           [frame_two; frame_empty; frame_two]
    /\ forall ref,
         calls_to ref cs
         = (length [frame_two; frame_empty; frame_two]
            * count_occ Z.eq_dec (map cbref (scripts two_scripts)) ref)%nat.
Proof.
  apply (C5_every_handler_once_per_frame x86_64 two_scripts
           [frame_two; frame_empty; frame_two] running).
  - reflexivity.
  - repeat constructor; vm_compute; (discriminate || reflexivity).
  - reflexivity.
  - reflexivity.
Defined.

(** C6.  The worker always ends with [exit (EXIT_SUCCESS)].  It tries
    SOCK_SEQPACKET first when the host has it, and tries SOCK_DGRAM exactly
    when the ordered mode is missing or its [socketpair] failed.  When both
    fail, the only further system call is the exit: no command is sent to
    the supervisor and no handler is called. *)
Theorem C6_seqpacket_then_dgram_then_exit {E : Type} `{LuaEngine E}
  (ly : layout) (h : host) (worker : rspamd_worker) (w : world E) :
  layout_ok ly = true ->
  exists w' tr,
    start_log_helper ly h worker w = Some (EXIT_SUCCESS, w')
    /\ syscalls w' = syscalls w ++ tr
    /\ socketpair_attempts tr
       = (if HAVE_SOCK_SEQPACKET h then [SOCK_SEQPACKET] else [])
         ++ (if seqpacket_failed h then [SOCK_DGRAM] else [])
    /\ (seqpacket_failed h = true ->
        socketpair_ret h SOCK_DGRAM = -1 ->
        tr = sys_prepare_worker
             :: (if HAVE_SOCK_SEQPACKET h
                 then [sys_socketpair SOCK_SEQPACKET (-1)] else [])
             ++ [sys_socketpair SOCK_DGRAM (-1); sys_exit EXIT_SUCCESS]
        /\ registration_attempts tr = 0%nat
        /\ calls w' = calls w).
Proof.
  intros Hly. apply layout_ok_facts in Hly.
  unfold start_log_helper, seqpacket_failed.
  destruct (HAVE_SOCK_SEQPACKET h);
    destruct (socketpair_ret h SOCK_SEQPACKET =? -1) eqn:Hseq;
    destruct (socketpair_ret h SOCK_DGRAM =? -1) eqn:Hdgram;
    cbv [socketpair bind syscall modify ret gets msg exit
           rspamd_srv_send_command];
    repeat (progress (rewrite ?Hseq, ?Hdgram;
                      cbn [negb orb Z.eqb Pos.eqb]; cbv beta iota));
    try match goal with
        | |- context [event_base_loop ly ?c ?ns ?w0] =>
            destruct (event_base_loop_total ly Hly c ns w0)
              as (w1 & extra & Hrun & Hsys & Hno & Hreg);
            rewrite Hrun;
            cbn [syscalls add_syscall set_reply_pending set_errno add_log]
              in Hsys
        end;
    eexists; eexists;
    (split; [reflexivity|]);
    (split; [cbn [syscalls add_syscall add_log set_errno];
             rewrite ?Hsys; cbn [syscalls add_syscall set_reply_pending];
             rewrite <- ?app_assoc; reflexivity|]);
    (split;
     [unfold socketpair_attempts in *; rewrite ?flat_map_app, ?Hno;
      reflexivity|]);
    intros Hfail Hd; try discriminate Hfail;
    try (apply Z.eqb_eq in Hd; congruence);
    try apply Z.eqb_eq in Hseq; rewrite ?Hseq, ?Hd;
    repeat split; reflexivity.
Qed.

Lemma C6_witness :
  exists w' tr,
    start_log_helper x86_64 failing_host demo_worker idle
    = Some (EXIT_SUCCESS, w')
    /\ syscalls w' = syscalls idle ++ tr
    /\ socketpair_attempts tr
       = (if HAVE_SOCK_SEQPACKET failing_host then [SOCK_SEQPACKET] else [])
         ++ (if seqpacket_failed failing_host then [SOCK_DGRAM] else [])
    /\ (seqpacket_failed failing_host = true ->
        socketpair_ret failing_host SOCK_DGRAM = -1 ->
        tr = sys_prepare_worker
             :: (if HAVE_SOCK_SEQPACKET failing_host
                 then [sys_socketpair SOCK_SEQPACKET (-1)] else [])
             ++ [sys_socketpair SOCK_DGRAM (-1); sys_exit EXIT_SUCCESS]
        /\ registration_attempts tr = 0%nat
        /\ calls w' = calls idle).
Proof.
  apply (C6_seqpacket_then_dgram_then_exit x86_64 failing_host demo_worker
           idle).
  reflexivity.
Defined.

(** C7, as amended.  No result of a read stops the loop.  While the read
    event is registered, any run of readiness notifications is served to
    the end and leaves the event registered; a failed read adds one warning
    with the error and a read of zero bytes changes nothing. *)
Theorem C7_no_read_result_stops_the_loop {E : Type} `{LuaEngine E}
  (ly : layout) (ctx : log_helper_ctx) (xs : list recv) (w : world E) :
  layout_ok ly = true ->
  state_of w = Running ->
  ev_persist (log_ev w) = true ->
  (exists w',
     event_base_loop ly ctx (map Readable xs) w = Some (tt, w')
     /\ log_ev w' = log_ev w
     /\ state_of w' = Running)
  /\ (forall e,
        deliver ly ctx (Readable (ReadError e)) w
        = Some (tt, add_log (set_errno w e) (warn_read e)))
  /\ deliver ly ctx (Readable Eof) w = Some (tt, w).
Proof.
  intros Hly Hrun Hp. apply layout_ok_facts in Hly.
  pose proof (running_inv w Hrun) as Ha.
  split; [|split].
  - eexists. split; [apply (event_base_loop_readable ly Hly); assumption|].
    assert (forall (l : list recv) (w0 : world E),
              log_ev (fold_left (fun w x => after_read ly ctx x w) l w0)
              = log_ev w0
              /\ state_of (fold_left (fun w x => after_read ly ctx x w) l w0)
                 = state_of w0) as Hkeep.
    { induction l as [|x tl IH]; intros w0; [split; reflexivity|].
      cbn [fold_left]. destruct (IH (after_read ly ctx x w0)) as [-> ->].
      split; [apply (after_read_frame ly ctx x w0)|].
      apply after_read_state. }
    destruct (Hkeep xs w) as [-> ->]. split; [reflexivity|exact Hrun].
  - intros e. apply (deliver_readable ly Hly ctx (ReadError e)); assumption.
  - apply (deliver_readable ly Hly ctx Eof); assumption.
Qed.

Lemma C7_witness :
  (exists w',
     event_base_loop x86_64 two_scripts
       (map Readable [ReadError EAGAIN; ReadError EBADF; Eof]) running
     = Some (tt, w')
     /\ log_ev w' = log_ev running
     /\ state_of w' = Running)
  /\ (forall e,
        deliver x86_64 two_scripts (Readable (ReadError e)) running
        = Some (tt, add_log (set_errno running e) (warn_read e)))
  /\ deliver x86_64 two_scripts (Readable Eof) running = Some (tt, running).
Proof.
  apply (C7_no_read_result_stops_the_loop x86_64 two_scripts
           [ReadError EAGAIN; ReadError EBADF; Eof] running);
    reflexivity.
Defined.

(** C7, as stated, fails: after a read that fails for good (ECONNRESET)
    and a read of zero bytes (the peers have closed), the loop is still
    running, and the frame that follows is dispatched to both handlers. *)
Lemma C7_counterexample :
  exists w',
    event_base_loop x86_64 two_scripts
      [Readable (ReadError ECONNRESET); Readable Eof;
       Readable (Datagram frame_two)] running
    = Some (tt, w')
    /\ state_of w' = Running
    /\ map callee (calls w') = [LRegistryValue 1; LRegistryValue 2]
    /\ log w' = [warn_read ECONNRESET;
                 err_handler (LString "handler failed")].
Proof.
  eexists. split; [vm_compute; reflexivity|].
  repeat split; reflexivity.
Qed.

(** C8.  An event whose encoding, header plus announced results, is longer
    than the 1024 bytes of [buf] is read cut to 1024 bytes.  The cut frame
    still announces the same count, which is more than the results that
    fit, so the callback discards it with a bad-length warning and calls no
    handler; what it does depends on the first 1024 bytes alone. *)
Theorem C8_oversized_event_is_discarded {E : Type} `{LuaEngine E}
  (ly : layout) (ctx : log_helper_ctx) (payload : list byte) (w : world E) :
  layout_ok ly = true ->
  sizeof_sum ly <= sizeof_buf ->
  Z.of_nat (length payload)
  = sizeof_sum ly + announced ly payload * sizeof_result ly ->
  sizeof_buf < Z.of_nat (length payload) ->
  Z.of_nat (length (received payload)) = sizeof_buf
  /\ announced ly (received payload) = announced ly payload
  /\ announced ly payload
     <> (sizeof_buf - sizeof_sum ly) / sizeof_result ly
  /\ (exists w',
        rspamd_log_helper_read ly ctx (Datagram payload) w = Some (tt, w')
        /\ calls w' = calls w
        /\ log w' = log w ++ [warn_bad_length (announced ly payload)
                                ((sizeof_buf - sizeof_sum ly)
                                 / sizeof_result ly)])
  /\ rspamd_log_helper_read ly ctx (Datagram payload) w
     = rspamd_log_helper_read ly ctx (Datagram (received payload)) w.
Proof.
  intros Hly Hfit Hlen Hbig. apply layout_ok_facts in Hly.
  pose proof (lf_result_pos ly Hly) as HS.
  assert (Z.of_nat (length (received payload)) = sizeof_buf) as Hr
    by (apply received_long; lia).
  assert (announced ly payload
          <> (sizeof_buf - sizeof_sum ly) / sizeof_result ly) as Hne.
  { intros Heq.
    assert (sizeof_result ly * ((sizeof_buf - sizeof_sum ly)
                                / sizeof_result ly)
            <= sizeof_buf - sizeof_sum ly)
      by (apply Z.mul_div_le; lia).
    rewrite <- Heq in *. nia. }
  split; [exact Hr|].
  split; [apply announced_received|].
  split; [exact Hne|].
  split.
  - eexists. split; [apply (read_total ly Hly)|].
    cbn [after_read]. rewrite Hr, announced_received.
    destruct (sizeof_buf <? sizeof_sum ly) eqn:Hlt;
      [apply Z.ltb_lt in Hlt; lia|].
    destruct (announced ly payload =? _) eqn:Heq;
      [apply Z.eqb_eq in Heq; contradiction|].
    split; reflexivity.
  - rewrite !(read_total ly Hly). cbn [after_read].
    assert (received (received payload) = received payload) as ->.
    { apply received_short. lia. }
    reflexivity.
Qed.

Lemma C8_witness :
  Z.of_nat (length (received frame_oversized)) = sizeof_buf
  /\ announced x86_64 (received frame_oversized)
     = announced x86_64 frame_oversized
  /\ announced x86_64 frame_oversized
     <> (sizeof_buf - sizeof_sum x86_64) / sizeof_result x86_64
  /\ (exists w',
        rspamd_log_helper_read x86_64 two_scripts
          (Datagram frame_oversized) running = Some (tt, w')
        /\ calls w' = calls running
        /\ log w' = log running
                    ++ [warn_bad_length (announced x86_64 frame_oversized)
                          ((sizeof_buf - sizeof_sum x86_64)
                           / sizeof_result x86_64)])
  /\ rspamd_log_helper_read x86_64 two_scripts (Datagram frame_oversized)
       running
     = rspamd_log_helper_read x86_64 two_scripts
         (Datagram (received frame_oversized)) running.
Proof.
  apply (C8_oversized_event_is_discarded x86_64 two_scripts frame_oversized
           running).
  - reflexivity.
  - vm_compute. discriminate.
  - vm_compute. reflexivity.
  - vm_compute. reflexivity.
Defined.

(** C9.  A received frame that is exactly one header long and announces
    no results is accepted: every handler of the registry is called once,
    in order, with the score, the required score, an empty table, the
    configuration object and the settings id of the frame. *)
Theorem C9_bare_header_is_dispatched {E : Type} `{LuaEngine E}
  (ly : layout) (ctx : log_helper_ctx) (frame : list byte) (w : world E) :
  layout_ok ly = true ->
  Z.of_nat (length frame) = sizeof_sum ly ->
  sizeof_sum ly <= sizeof_buf ->
  announced ly frame = 0 ->
  exists w' cs,
    rspamd_log_helper_read ly ctx (Datagram frame) w = Some (tt, w')
    /\ calls w' = calls w ++ cs
    /\ map (fun c => (callee c, call_args c)) cs
       = map (fun sc =>
                (LRegistryValue (cbref sc),
                 [ LNumber (num_of_bits (peek ly frame (off_score ly) 8));
                   LNumber (num_of_bits
                              (peek ly frame (off_required_score ly) 8));
                   LTable [];
                   LUserdata (Some (cfg ctx)) (Some "rspamd{config}"%string);
                   LNumber (num_of_int
                              (peek ly frame (off_settings_id ly) 4)) ]))
           (scripts ctx).
Proof.
  intros Hly Hlen Hfit Hn. apply layout_ok_facts in Hly.
  pose proof (lf_result_pos ly Hly) as HS.
  exists (after_read ly ctx (Datagram frame) w),
    (fan_out_records (frame_args ly ctx frame) (scripts ctx) (engine w)).
  split; [apply (read_total ly Hly)|].
  rewrite after_read_accepted;
    [|lia|lia|rewrite Hn, Hlen, Z.sub_diag; reflexivity].
  destruct (fan_out_trace (frame_args ly ctx frame) (scripts ctx) w)
    as [Hcalls _].
  split; [exact Hcalls|].
  rewrite fan_out_records_shape.
  unfold frame_args, handler_args, wire_event. rewrite Hn. reflexivity.
Qed.

Lemma C9_witness :
  exists w' cs,
    rspamd_log_helper_read x86_64 two_scripts (Datagram frame_empty) running
    = Some (tt, w')
    /\ calls w' = calls running ++ cs
    /\ map (fun c => (callee c, call_args c)) cs
       = map (fun sc =>
                (LRegistryValue (cbref sc),
                 [ LNumber (num_of_bits
                              (peek x86_64 frame_empty (off_score x86_64) 8));
                   LNumber (num_of_bits
                              (peek x86_64 frame_empty
                                 (off_required_score x86_64) 8));
                   LTable [];
                   LUserdata (Some (cfg two_scripts))
                     (Some "rspamd{config}"%string);
                   LNumber (num_of_int
                              (peek x86_64 frame_empty
                                 (off_settings_id x86_64) 4)) ]))
           (scripts two_scripts).
Proof.
  apply (C9_bare_header_is_dispatched x86_64 two_scripts frame_empty
           running).
  - reflexivity.
  - vm_compute. reflexivity.
  - vm_compute. discriminate.
  - vm_compute. reflexivity.
Defined.

(** C10.  The Lua stack is balanced.  The protected call with five
    arguments removes them and the function below them and leaves nothing
    on success and exactly one error value on failure, which one
    [lua_pop] removes; and whatever a read returns and whichever handlers
    fail, the callback returns with the stack it was entered with. *)
Theorem C10_lua_stack_is_balanced {E : Type} `{LuaEngine E}
  (ly : layout) (ctx : log_helper_ctx) (x : recv) (w : world E) :
  layout_ok ly = true ->
  (exists w',
     rspamd_log_helper_read ly ctx x w = Some (tt, w')
     /\ stack w' = stack w)
  /\ forall f a1 a2 a3 a4 a5 rest (w0 : world E),
       stack w0 = a5 :: a4 :: a3 :: a2 :: a1 :: f :: rest ->
       exists status w1,
         lua_pcall 5 0 0 w0 = Some (status, w1)
         /\ ((status = 0 /\ stack w1 = rest)
             \/ (status <> 0
                 /\ exists err w2,
                      stack w1 = err :: rest
                      /\ lua_pop 1 w1 = Some (tt, w2)
                      /\ stack w2 = rest)).
Proof.
  intros Hly. apply layout_ok_facts in Hly. split.
  - eexists. split; [apply (read_total ly Hly)|].
    apply (after_read_frame ly ctx x w).
  - intros f a1 a2 a3 a4 a5 rest w0 Hst.
    unfold lua_pcall. cbn [Z.leb Z.eqb andb Z.compare].
    change (Z.to_nat 5) with 5%nat. rewrite Hst. cbn [skipn firstn].
    destruct (protected_call (engine w0) f _) as [e' [err|]].
    + eexists. eexists. split; [reflexivity|]. right.
      split; [discriminate|].
      exists err. eexists. split; [reflexivity|].
      split; [apply (lua_pop_one err rest); reflexivity|reflexivity].
    + eexists. eexists. split; [reflexivity|]. left.
      split; reflexivity.
Qed.

Lemma C10_witness :
  (exists w',
     rspamd_log_helper_read x86_64 two_scripts (Datagram frame_two)
       (set_stack running [LString "below"]) = Some (tt, w')
     /\ stack w' = stack (set_stack running [LString "below"]))
  /\ forall f a1 a2 a3 a4 a5 rest (w0 : world nat),
       stack w0 = a5 :: a4 :: a3 :: a2 :: a1 :: f :: rest ->
       exists status w1,
         lua_pcall 5 0 0 w0 = Some (status, w1)
         /\ ((status = 0 /\ stack w1 = rest)
             \/ (status <> 0
                 /\ exists err w2,
                      stack w1 = err :: rest
                      /\ lua_pop 1 w1 = Some (tt, w2)
                      /\ stack w2 = rest)).
Proof.
  apply (C10_lua_stack_is_balanced x86_64 two_scripts (Datagram frame_two)
           (set_stack running [LString "below"])).
  reflexivity.
Defined.

(** ** The scenarios of the specification, run on the embedding *)

Module Scenarios.

(** Scenario 1: two results, valid length; both handlers get the ordered
    list of two. *)
Example two_results_delivered :
  option_map (fun r => map call_args (calls (snd r)))
    (rspamd_log_helper_read x86_64 two_scripts (Datagram frame_two) running)
  = let args :=
      [ LNumber (num_of_bits 100); LNumber (num_of_bits 200);
        LTable [ (1, LTable [ (1, LNumber (num_of_int 5));
                              (2, LNumber (num_of_bits 50)) ]);
                 (2, LTable [ (1, LNumber (num_of_int (-1)));
                              (2, LNumber (num_of_bits 60)) ]) ];
        LUserdata (Some 4096) (Some "rspamd{config}"%string);
        LNumber (num_of_int 9) ] in
    Some [args; args].
Proof. vm_compute. reflexivity. Qed.

(** Scenario 2: three announced, two present; no call, one warning. *)
Example three_announced_two_present :
  option_map (fun r => (calls (snd r), log (snd r)))
    (rspamd_log_helper_read x86_64 two_scripts
       (Datagram frame_three_announced) running)
  = Some ([], [warn_bad_length 3 2]).
Proof. vm_compute. reflexivity. Qed.

(** Scenario 3: the ordered mode fails, the datagram mode works; the
    worker registers and then serves the loop. *)
Example ordered_mode_unavailable :
  option_map (fun r => (fst r, syscalls (snd r),
                        map callee (calls (snd r))))
    (start_log_helper x86_64 dgram_host demo_worker idle)
  = Some (EXIT_SUCCESS,
          [ sys_prepare_worker;
            sys_socketpair SOCK_SEQPACKET (-1);
            sys_socketpair SOCK_DGRAM 0;
            sys_lock_start_mtx; sys_srv_send_command 8;
            sys_unlock_start_mtx; sys_event_base_loop;
            sys_close 8; sys_close 7;
            sys_block_signals; sys_log_close; sys_exit EXIT_SUCCESS ],
          [LRegistryValue 1; LRegistryValue 2]).
Proof. vm_compute. reflexivity. Qed.

(** Scenario 4: both modes fail. *)
Example both_modes_unavailable :
  option_map (fun r => (fst r, syscalls (snd r), log (snd r)))
    (start_log_helper x86_64 failing_host demo_worker idle)
  = Some (EXIT_SUCCESS,
          [ sys_prepare_worker;
            sys_socketpair SOCK_SEQPACKET (-1);
            sys_socketpair SOCK_DGRAM (-1);
            sys_exit EXIT_SUCCESS ],
          [err_socketpair EAFNOSUPPORT]).
Proof. vm_compute. reflexivity. Qed.

(** Scenario 5: of two handlers the first always fails; after five frames
    each was called five times and five failures were logged. *)
Example one_handler_always_fails :
  option_map (fun r => (calls_to 1 (calls (snd r)),
                        calls_to 2 (calls (snd r)),
                        log (snd r)))
    (event_base_loop x86_64 two_scripts
       (map Readable (repeat (Datagram frame_two) 5)) running)
  = Some (5%nat, 5%nat,
          repeat (err_handler (LString "handler failed")) 5).
Proof. vm_compute. reflexivity. Qed.

End Scenarios.

(** ** Further facts: the handshake, the loop around the callback and the
       bounds of what handlers see *)

Module MoreFacts.
Import Mem Wire Lua Sys LogHelper Facts Observe.

Section Generic.

Context {E : Type} `{LuaEngine E}.
Variable ly : layout.
Hypothesis ly_ok : layout_facts ly.

(** The supervisor's answer, when one is awaited: [pair[1]] is closed and
    the read event is set on [pair[0]] with EV_PERSIST and added. *)
Lemma deliver_reply (ctx : log_helper_ctx) (w : world E) :
  reply_pending w = true ->
  exists w',
    deliver ly ctx SrvReply w = Some (tt, w')
    /\ syscalls w' = syscalls w ++ [sys_close (snd (pair ctx))]
    /\ log w' = log w ++ [info_start_waiting]
    /\ log_ev w' = {| ev_fd := fst (pair ctx); ev_persist := true;
                      ev_added := true |}
    /\ reply_pending w' = false
    /\ calls w' = calls w
    /\ stack w' = stack w
    /\ engine w' = engine w.
Proof.
  intros Hp. unfold deliver, bind, gets. rewrite Hp.
  eexists. split; [reflexivity|]. repeat split; reflexivity.
Qed.

Lemma deliver_trace (ctx : log_helper_ctx) (nt : notification)
  (w : world E) :
  exists w',
    deliver ly ctx nt w = Some (tt, w')
    /\ reply_pending w' = reply_pending w && negb (is_reply nt)
    /\ syscalls w' = syscalls w
                     ++ (if reply_pending w && is_reply nt
                         then [sys_close (snd (pair ctx))] else []).
Proof.
  destruct nt as [|x].
  - destruct (reply_pending w) eqn:Hp.
    + destruct (deliver_reply ctx w Hp) as (w' & -> & Hs & _ & _ & Hr & _).
      exists w'. rewrite Hs, Hr. repeat split; reflexivity.
    + exists w. unfold deliver, bind, gets. rewrite Hp.
      rewrite app_nil_r. repeat split; reflexivity.
  - cbn [is_reply negb]. rewrite !andb_false_r, andb_true_r, app_nil_r.
    unfold deliver, bind, gets.
    destruct (ev_added (log_ev w)).
    + destruct (ev_persist (log_ev w)); unfold ret, event_del, modify;
        rewrite (read_total ly ly_ok); eexists; (split; [reflexivity|]).
      * destruct (after_read_frame ly ctx x w) as (_ & _ & -> & ->).
        split; reflexivity.
      * match goal with
        | |- context [after_read ly ctx x ?w0] =>
            destruct (after_read_frame ly ctx x w0) as (_ & _ & -> & ->)
        end.
        split; reflexivity.
    + exists w. repeat split; reflexivity.
Qed.

(** Over a whole run of the loop [pair[1]] is closed once, by the first
    answer of the supervisor, and never when no answer comes. *)
Lemma event_base_loop_trace (ctx : log_helper_ctx)
  (ns : list notification) :
  forall w : world E,
  exists w',
    event_base_loop ly ctx ns w = Some (tt, w')
    /\ syscalls w' = syscalls w
                     ++ (if reply_pending w && existsb is_reply ns
                         then [sys_close (snd (pair ctx))] else []).
Proof.
  induction ns as [|nt tl IH]; intros w.
  - exists w. cbn [existsb]. rewrite andb_false_r, app_nil_r.
    split; reflexivity.
  - cbn [event_base_loop existsb]. unfold bind.
    destruct (deliver_trace ctx nt w) as (w1 & -> & Hp1 & Hs1).
    destruct (IH w1) as (w2 & -> & Hs2).
    exists w2. split; [reflexivity|].
    rewrite Hs2, Hs1, Hp1, <- app_assoc. f_equal.
    destruct (reply_pending w), (is_reply nt), (existsb is_reply tl);
      reflexivity.
Qed.

(** The answer followed by accepted frames: every frame is dispatched. *)
Lemma loop_after_reply (ctx : log_helper_ctx) (frames : list (list byte))
  (w : world E) :
  reply_pending w = true ->
  Forall (fun f => Z.of_nat (length f) <= sizeof_buf
                   /\ accepted ly f = true) frames ->
  exists w' cs,
    event_base_loop ly ctx (SrvReply :: map Readable (map Datagram frames)) w
    = Some (tt, w')
    /\ calls w' = calls w ++ cs
    /\ map (fun c => (callee c, call_args c)) cs
       = flat_map (fun f => map (fun sc => (LRegistryValue (cbref sc),
                                           frame_args ly ctx f))
                             (scripts ctx)) frames.
Proof.
  intros Hp Hframes. cbn [event_base_loop]. unfold bind.
  destruct (deliver_reply ctx w Hp)
    as (w1 & -> & _ & _ & Hev & _ & Hcalls & _).
  destruct (frames_trace ly ctx frames Hframes w1)
    as (cs & Hcs & Hshape & _).
  eexists. exists cs.
  split; [apply (event_base_loop_readable ly ly_ok); rewrite Hev;
          reflexivity|].
  rewrite Hcs, Hcalls. split; [reflexivity|exact Hshape].
Qed.

End Generic.

End MoreFacts.

(** ** Further properties of the worker *)

Import MoreFacts Observe.

(** X1.  When one of the two [socketpair] calls succeeds, the worker sends
    exactly one command to the supervisor, with [pair[1]] attached, while
    it holds the start mutex and before it enters the loop.  [pair[1]] is
    closed during the loop if and only if the supervisor answers, and
    [pair[0]] is closed once, after the loop, before the worker exits with
    EXIT_SUCCESS. *)
Theorem X1_one_registration_under_the_start_mutex {E : Type} `{LuaEngine E}
  (ly : layout) (h : host) (worker : rspamd_worker) (w : world E) :
  layout_ok ly = true ->
  established h = true ->
  exists w' tr,
    start_log_helper ly h worker w = Some (EXIT_SUCCESS, w')
    /\ syscalls w' = syscalls w ++ tr
    /\ tr = sys_prepare_worker
            :: attempts_trace h
            ++ [ sys_lock_start_mtx;
                 sys_srv_send_command (snd (socketpair_fds h (used_type h)));
                 sys_unlock_start_mtx;
                 sys_event_base_loop ]
            ++ (if existsb is_reply (incoming h)
                then [sys_close (snd (socketpair_fds h (used_type h)))]
                else [])
            ++ [ sys_close (fst (socketpair_fds h (used_type h)));
                 sys_block_signals; sys_log_close; sys_exit EXIT_SUCCESS ]
    /\ registration_attempts tr = 1%nat.
Proof.
  intros Hly Hest. apply layout_ok_facts in Hly.
  unfold established, attempts_trace, used_type, seqpacket_failed in *.
  unfold start_log_helper.
  destruct (HAVE_SOCK_SEQPACKET h);
    destruct (socketpair_ret h SOCK_SEQPACKET =? -1) eqn:Hseq;
    destruct (socketpair_ret h SOCK_DGRAM =? -1) eqn:Hdgram;
    try discriminate Hest;
    cbv [socketpair bind syscall modify ret gets msg exit
           rspamd_srv_send_command];
    repeat (progress (rewrite ?Hseq, ?Hdgram;
                      cbn [negb orb Z.eqb Pos.eqb]; cbv beta iota));
    match goal with
    | |- context [event_base_loop ly ?c ?ns ?w0] =>
        destruct (event_base_loop_trace ly Hly c ns w0)
          as (w1 & Hrun & Hsys);
        rewrite Hrun;
        cbn [syscalls add_syscall set_reply_pending set_errno add_log
               reply_pending andb pair] in Hsys
    end;
    eexists; eexists;
    (split; [reflexivity|]);
    (split; [cbn [syscalls add_syscall]; rewrite Hsys;
             rewrite <- ?app_assoc; reflexivity|]);
    (split; [cbn [app pair]; rewrite <- ?app_assoc; reflexivity|]);
    unfold registration_attempts;
    destruct (existsb is_reply (incoming h)); reflexivity.
Qed.

Lemma X1_witness :
  exists w' tr,
    start_log_helper x86_64 dgram_host demo_worker idle
    = Some (EXIT_SUCCESS, w')
    /\ syscalls w' = syscalls idle ++ tr
    /\ tr = sys_prepare_worker
            :: attempts_trace dgram_host
            ++ [ sys_lock_start_mtx;
                 sys_srv_send_command
                   (snd (socketpair_fds dgram_host (used_type dgram_host)));
                 sys_unlock_start_mtx;
                 sys_event_base_loop ]
            ++ (if existsb is_reply (incoming dgram_host)
                then [sys_close
                        (snd (socketpair_fds dgram_host
                                (used_type dgram_host)))]
                else [])
            ++ [ sys_close
                   (fst (socketpair_fds dgram_host (used_type dgram_host)));
                 sys_block_signals; sys_log_close; sys_exit EXIT_SUCCESS ]
    /\ registration_attempts tr = 1%nat.
Proof.
  apply (X1_one_registration_under_the_start_mutex x86_64 dgram_host
           demo_worker idle); reflexivity.
Defined.

(** X2.  From the start of the worker to the handlers: when a socket pair
    is obtained and the supervisor answers before the frames arrive, every
    accepted frame is handed, in order of receipt, to every script of
    [worker->cf->scripts], in list order, with the configuration
    [worker->srv->cfg] as fourth argument. *)
Theorem X2_frames_reach_the_workers_scripts {E : Type} `{LuaEngine E}
  (ly : layout) (h : host) (worker : rspamd_worker)
  (frames : list (list byte)) (w : world E) :
  layout_ok ly = true ->
  established h = true ->
  incoming h = SrvReply :: map Readable (map Datagram frames) ->
  Forall (fun f => Z.of_nat (length f) <= sizeof_buf
                   /\ accepted ly f = true) frames ->
  exists w' cs,
    start_log_helper ly h worker w = Some (EXIT_SUCCESS, w')
    /\ calls w' = calls w ++ cs
    /\ map (fun c => (callee c, call_args c)) cs
       = flat_map
           (fun f => map (fun sc =>
                            (LRegistryValue (cbref sc),
                             handler_args (srv_cfg worker)
                               (wire_event ly f (announced ly f))))
                       (cf_scripts worker)) frames.
Proof.
  intros Hly Hest Hin Hframes. apply layout_ok_facts in Hly.
  unfold established, seqpacket_failed in Hest.
  unfold start_log_helper. rewrite Hin.
  destruct (HAVE_SOCK_SEQPACKET h);
    destruct (socketpair_ret h SOCK_SEQPACKET =? -1) eqn:Hseq;
    destruct (socketpair_ret h SOCK_DGRAM =? -1) eqn:Hdgram;
    try discriminate Hest;
    cbv [socketpair bind syscall modify ret gets msg exit
           rspamd_srv_send_command];
    repeat (progress (rewrite ?Hseq, ?Hdgram;
                      cbn [negb orb Z.eqb Pos.eqb]; cbv beta iota));
    match goal with
    | |- context [event_base_loop ly ?c ?ns ?w0] =>
        destruct (loop_after_reply ly Hly c frames w0 eq_refl Hframes)
          as (w1 & cs & Hrun & Hcalls & Hshape);
        rewrite Hrun
    end;
    eexists; exists cs;
    (split; [reflexivity|]);
    (split; [exact Hcalls|exact Hshape]).
Qed.

Lemma X2_witness :
  exists w' cs,
    start_log_helper x86_64 dgram_host demo_worker idle
    = Some (EXIT_SUCCESS, w')
    /\ calls w' = calls idle ++ cs
    /\ map (fun c => (callee c, call_args c)) cs
       = flat_map
           (fun f => map (fun sc =>
                            (LRegistryValue (cbref sc),
                             handler_args (srv_cfg demo_worker)
                               (wire_event x86_64 f (announced x86_64 f))))
                       (cf_scripts demo_worker)) [frame_two].
Proof.
  apply (X2_frames_reach_the_workers_scripts x86_64 dgram_host demo_worker
           [frame_two] idle).
  - reflexivity.
  - reflexivity.
  - reflexivity.
  - repeat constructor; vm_compute; (discriminate || reflexivity).
Defined.

(** X3.  When no socket pair can be had, the worker logs one error, with
    the errno left by the SOCK_DGRAM attempt, and exits with EXIT_SUCCESS
    without touching the Lua state, the read event or the handshake. *)
Theorem X3_failure_logs_the_datagram_errno {E : Type} `{LuaEngine E}
  (ly : layout) (h : host) (worker : rspamd_worker) (w : world E) :
  established h = false ->
  exists w',
    start_log_helper ly h worker w = Some (EXIT_SUCCESS, w')
    /\ log w' = log w ++ [err_socketpair (socketpair_errno h SOCK_DGRAM)]
    /\ stack w' = stack w
    /\ engine w' = engine w
    /\ calls w' = calls w
    /\ log_ev w' = log_ev w
    /\ reply_pending w' = reply_pending w.
Proof.
  intros Hest. unfold established, seqpacket_failed in Hest.
  unfold start_log_helper.
  destruct (HAVE_SOCK_SEQPACKET h);
    destruct (socketpair_ret h SOCK_SEQPACKET =? -1) eqn:Hseq;
    destruct (socketpair_ret h SOCK_DGRAM =? -1) eqn:Hdgram;
    try discriminate Hest;
    cbv [socketpair bind syscall modify ret gets msg exit
           rspamd_srv_send_command];
    repeat (progress (rewrite ?Hseq, ?Hdgram;
                      cbn [negb orb Z.eqb Pos.eqb]; cbv beta iota));
    eexists; (split; [reflexivity|]); repeat split; reflexivity.
Qed.

Lemma X3_witness :
  exists w',
    start_log_helper x86_64 failing_host demo_worker idle
    = Some (EXIT_SUCCESS, w')
    /\ log w' = log idle
                ++ [err_socketpair (socketpair_errno failing_host SOCK_DGRAM)]
    /\ stack w' = stack idle
    /\ engine w' = engine idle
    /\ calls w' = calls idle
    /\ log_ev w' = log_ev idle
    /\ reply_pending w' = reply_pending idle.
Proof.
  apply (X3_failure_logs_the_datagram_errno x86_64 failing_host demo_worker
           idle).
  reflexivity.
Defined.

Module WireFacts.
Import Mem Wire Lua Sys LogHelper Facts Observe.

Section Generic.

Context {E : Type} `{LuaEngine E}.
Variable ly : layout.
Hypothesis ly_ok : layout_facts ly.

(** A field that lies inside the first [k] bytes reads the same after
    the rest is cut off. *)
Lemma peek_firstn (m : list byte) (k : nat) (off len : Z) :
  0 <= off -> 0 <= len -> off + len <= Z.of_nat k ->
  peek ly (firstn k m) off len = peek ly m off len.
Proof.
  intros Ho Hl Hk. unfold peek. f_equal.
  rewrite skipn_firstn_comm, firstn_firstn. f_equal. lia.
Qed.

(** What an accepted frame of at most [sizeof buf] bytes satisfies. *)
Lemma accepted_inv (frame : list byte) :
  Z.of_nat (length frame) <= sizeof_buf ->
  accepted ly frame = true ->
  sizeof_sum ly <= Z.of_nat (length frame)
  /\ announced ly frame
     = (Z.of_nat (length frame) - sizeof_sum ly) / sizeof_result ly
  /\ 0 <= announced ly frame
  /\ sizeof_sum ly + announced ly frame * sizeof_result ly
     <= Z.of_nat (length frame)
  /\ announced ly frame <= (sizeof_buf - sizeof_sum ly) / sizeof_result ly.
Proof.
  intros Hbuf Hacc. pose proof (lf_result_pos ly ly_ok) as HS.
  unfold accepted in Hacc. apply andb_true_iff in Hacc as [Hhdr Hn].
  apply Z.leb_le in Hhdr. apply Z.eqb_eq in Hn.
  assert (sizeof_result ly * ((Z.of_nat (length frame) - sizeof_sum ly)
                              / sizeof_result ly)
          <= Z.of_nat (length frame) - sizeof_sum ly)
    by (apply Z.mul_div_le; lia).
  repeat split; try assumption.
  - rewrite Hn. apply Z.div_pos; lia.
  - rewrite Hn. lia.
  - rewrite Hn. apply Z.div_le_mono; lia.
Qed.

Lemma wire_event_firstn (frame : list byte) (k : nat) (n : Z) :
  0 <= n ->
  sizeof_sum ly + n * sizeof_result ly <= Z.of_nat k ->
  wire_event ly (firstn k frame) n = wire_event ly frame n.
Proof.
  intros Hn Hk.
  pose proof (lf_result_pos ly ly_ok) as HS.
  pose proof (lf_score ly ly_ok). pose proof (lf_required ly ly_ok).
  pose proof (lf_settings ly ly_ok). pose proof (lf_results ly ly_ok).
  pose proof (lf_res_id ly ly_ok). pose proof (lf_res_score ly ly_ok).
  unfold wire_event, width_double, width_settings_id.
  rewrite !peek_firstn by nia. f_equal.
  unfold wire_symbols. apply map_ext_in. intros i Hi.
  apply in_seq in Hi.
  unfold wire_symbol, result_at, width_res_id, width_double.
  rewrite !peek_firstn by nia. reflexivity.
Qed.

Lemma fan_out_engine (args : list lua_value)
  (l : list rspamd_worker_lua_script) :
  forall w : world E,
    engine (fan_out args l w) = engine_after args l (engine w).
Proof.
  induction l as [|sc tl IH]; intros w.
  - reflexivity.
  - cbn [fan_out engine_after fold_left].
    fold (fan_out args tl (invoke args sc w)).
    fold (engine_after args tl
            (fst (protected_call (engine w) (LRegistryValue (cbref sc))
                    args))).
    rewrite IH. f_equal. unfold invoke.
    destruct (protected_call (engine w) (LRegistryValue (cbref sc)) args)
      as [e' [err|]]; reflexivity.
Qed.

Lemma fan_out_records_exact (args : list lua_value)
  (l : list rspamd_worker_lua_script) :
  forall (e : E) (k : nat) (sc : rspamd_worker_lua_script),
    nth_error l k = Some sc ->
    nth_error (fan_out_records args l e) k
    = Some {| callee := LRegistryValue (cbref sc);
              call_args := args;
              call_error :=
                snd (protected_call (engine_after args (firstn k l) e)
                       (LRegistryValue (cbref sc)) args) |}.
Proof.
  induction l as [|sc0 tl IH]; intros e k sc Hk.
  - destruct k; discriminate.
  - cbn [fan_out_records].
    destruct (protected_call e (LRegistryValue (cbref sc0)) args)
      as [e' res] eqn:Hcall.
    destruct k as [|k].
    + injection Hk as <-. cbn [nth_error firstn engine_after fold_left].
      rewrite Hcall. reflexivity.
    + cbn [nth_error firstn engine_after fold_left] in *.
      rewrite Hcall. cbn [fst]. apply (IH e' k sc Hk).
Qed.

(** Past the results that are there, the copy loop leaves the block. *)
Lemma for_results_overrun (sm : list byte) (todo : nat) :
  off_results ly = sizeof_sum ly ->
  off_res_score ly + 8 = sizeof_result ly ->
  Z.of_nat (length sm) <= sizeof_buf ->
  forall (i : Z) (vs st : list lua_value) (w : world E),
    stack w = LTable (lua_array_from 1 vs) :: st ->
    i = Z.of_nat (length vs) ->
    sizeof_sum ly + i * sizeof_result ly <= Z.of_nat (length sm) ->
    Z.of_nat (length sm)
    < sizeof_sum ly + (i + Z.of_nat todo) * sizeof_result ly ->
    for_results ly sm todo i w = None.
Proof.
  intros Hres Hlast Hbuf. unfold sizeof_buf in Hbuf.
  pose proof (lf_result_pos ly ly_ok) as HS.
  pose proof (lf_count ly ly_ok) as Hc.
  induction todo as [|todo IH]; intros i vs st w Hst Hi Hin Hout.
  - exfalso. lia.
  - cbn [for_results]. unfold bind.
    destruct (Z_le_gt_dec (sizeof_sum ly + (i + 1) * sizeof_result ly)
                (Z.of_nat (length sm))) as [Hfits | Hover].
    + rewrite (push_result_ok ly ly_ok sm i vs st w Hst Hi) by nia.
      rewrite guint32_small by nia.
      apply (IH (i + 1) (vs ++ [lua_symbol (wire_symbol ly sm i)]) st).
      * reflexivity.
      * rewrite length_app. cbn [length]. lia.
      * exact Hfits.
      * lia.
    + assert (sm_result_score ly sm i = None) as Hscore.
      { unfold sm_result_score, load_uint, width_double.
        rewrite load_outside; [reflexivity|]. unfold result_at. lia. }
      unfold push_result, bind, lift. rewrite Hscore.
      unfold lua_createtable, lua_pushnumber, push, modify, lua_rawseti.
      destruct (sm_result_id ly sm i); [|reflexivity].
      cbn [stack set_stack]. reflexivity.
Qed.

End Generic.

End WireFacts.

Import WireFacts.

(** X4.  Bytes after the announced results never reach a handler: an
    accepted frame and the same frame cut after its last announced result
    make the callback do exactly the same. *)
Theorem X4_trailing_bytes_are_not_delivered {E : Type} `{LuaEngine E}
  (ly : layout) (ctx : log_helper_ctx) (frame : list byte) (w : world E) :
  layout_ok ly = true ->
  Z.of_nat (length frame) <= sizeof_buf ->
  accepted ly frame = true ->
  Z.of_nat (length (exact_part ly frame))
  = sizeof_sum ly + announced ly frame * sizeof_result ly
  /\ accepted ly (exact_part ly frame) = true
  /\ rspamd_log_helper_read ly ctx (Datagram frame) w
     = rspamd_log_helper_read ly ctx (Datagram (exact_part ly frame)) w.
Proof.
  intros Hly Hbuf Hacc. apply layout_ok_facts in Hly.
  pose proof (lf_result_pos ly Hly) as HS.
  pose proof (lf_count ly Hly) as Hc.
  destruct (accepted_inv ly Hly frame Hbuf Hacc)
    as (Hhdr & Hq & Hn0 & Hfit & _).
  set (n := announced ly frame) in *.
  set (cut := sizeof_sum ly + n * sizeof_result ly) in *.
  assert (Z.of_nat (length (exact_part ly frame)) = cut) as Hlen.
  { unfold exact_part. fold n. fold cut. rewrite length_firstn. lia. }
  assert (announced ly (exact_part ly frame) = n) as Hann.
  { unfold announced, exact_part, width_count. fold n. fold cut.
    apply (peek_firstn ly); lia. }
  assert (announced ly (exact_part ly frame)
          = (Z.of_nat (length (exact_part ly frame)) - sizeof_sum ly)
            / sizeof_result ly) as Hq'.
  { rewrite Hann, Hlen. unfold cut.
    replace (sizeof_sum ly + n * sizeof_result ly - sizeof_sum ly)
      with (n * sizeof_result ly) by lia.
    rewrite Z.div_mul by lia. reflexivity. }
  split; [exact Hlen|]. split.
  - unfold accepted. apply andb_true_iff. split.
    + apply Z.leb_le. lia.
    + apply Z.eqb_eq. exact Hq'.
  - rewrite !(read_total ly Hly).
    rewrite (after_read_accepted ly ctx frame w Hbuf Hhdr Hq).
    rewrite (after_read_accepted ly ctx (exact_part ly frame) w);
      [|lia|lia|exact Hq'].
    unfold frame_args. rewrite Hann. fold n.
    unfold exact_part. fold n. fold cut.
    rewrite (wire_event_firstn ly Hly) by lia.
    reflexivity.
Qed.

Lemma X4_witness :
  Z.of_nat (length (exact_part x86_64 frame_two_trailing))
  = sizeof_sum x86_64
    + announced x86_64 frame_two_trailing * sizeof_result x86_64
  /\ accepted x86_64 (exact_part x86_64 frame_two_trailing) = true
  /\ rspamd_log_helper_read x86_64 two_scripts
       (Datagram frame_two_trailing) running
     = rspamd_log_helper_read x86_64 two_scripts
         (Datagram (exact_part x86_64 frame_two_trailing)) running.
Proof.
  apply (X4_trailing_bytes_are_not_delivered x86_64 two_scripts
           frame_two_trailing running).
  - reflexivity.
  - vm_compute. discriminate.
  - vm_compute. reflexivity.
Defined.

(** X5.  Whatever a read returns, a handler is never given more than
    [(sizeof buf - header_size) / symbol_result_size] results: the third
    argument of every call the callback makes is a table of at most that
    many entries. *)
Theorem X5_results_bounded_by_the_buffer {E : Type} `{LuaEngine E}
  (ly : layout) (ctx : log_helper_ctx) (x : recv) (w : world E) :
  layout_ok ly = true ->
  exists w' cs,
    rspamd_log_helper_read ly ctx x w = Some (tt, w')
    /\ calls w' = calls w ++ cs
    /\ Forall (fun c =>
                 exists t,
                   nth_error (call_args c) 2 = Some (LTable t)
                   /\ Z.of_nat (length t)
                      <= (sizeof_buf - sizeof_sum ly) / sizeof_result ly)
         cs.
Proof.
  intros Hly. apply layout_ok_facts in Hly.
  rewrite (read_total ly Hly).
  destruct (dispatches ly x) eqn:Hd.
  - destruct x as [p | | e]; try discriminate Hd. cbn [dispatches] in Hd.
    pose proof (received_length p) as [_ Hbuf].
    destruct (accepted_inv ly Hly _ Hbuf Hd) as (Hhdr & Hq & Hn0 & _ & Hmax).
    assert (after_read ly ctx (Datagram p) w
            = fan_out (frame_args ly ctx (received p)) (scripts ctx) w)
      as ->.
    { cbn [after_read].
      destruct (_ <? _) eqn:Hlt; [apply Z.ltb_lt in Hlt; lia|].
      rewrite <- Hq, Z.eqb_refl. reflexivity. }
    destruct (fan_out_trace (frame_args ly ctx (received p)) (scripts ctx) w)
      as [Hcalls _].
    eexists. eexists. split; [reflexivity|]. split; [exact Hcalls|].
    apply Forall_forall. intros c Hin.
    apply (in_map (fun c => (callee c, call_args c))) in Hin.
    rewrite fan_out_records_shape in Hin.
    apply in_map_iff in Hin as (sc & Heq & _).
    injection Heq as _ <-.
    eexists. split; [reflexivity|].
    rewrite lua_array_from_length, length_map. cbn [symbol_results wire_event].
    rewrite (wire_symbols_length ly). lia.
  - exists (after_read ly ctx x w), [].
    split; [reflexivity|]. split; [|constructor].
    rewrite app_nil_r.
    destruct x as [p | | e]; cbn [after_read dispatches] in *;
      try reflexivity.
    unfold accepted in Hd.
    destruct (_ <? _) eqn:Hlt; [reflexivity|].
    apply Z.ltb_ge in Hlt. apply Z.leb_le in Hlt. rewrite Hlt in Hd.
    cbn [andb] in Hd. rewrite Hd. reflexivity.
Qed.

Lemma X5_witness :
  exists w' cs,
    rspamd_log_helper_read x86_64 two_scripts (Datagram frame_two) running
    = Some (tt, w')
    /\ calls w' = calls running ++ cs
    /\ Forall (fun c =>
                 exists t,
                   nth_error (call_args c) 2 = Some (LTable t)
                   /\ Z.of_nat (length t)
                      <= (sizeof_buf - sizeof_sum x86_64)
                         / sizeof_result x86_64)
         cs.
Proof.
  apply (X5_results_bounded_by_the_buffer x86_64 two_scripts
           (Datagram frame_two) running).
  reflexivity.
Defined.

(** X6.  Delivery is all or nothing.  One turn of the callback makes one
    protected call per script of the registry when what was read passes the
    two checks, and none otherwise; in the latter case the Lua engine and
    stack are not touched and the log grows by at most one line. *)
Theorem X6_delivery_is_all_or_nothing {E : Type} `{LuaEngine E}
  (ly : layout) (ctx : log_helper_ctx) (x : recv) (w : world E) :
  layout_ok ly = true ->
  exists w',
    rspamd_log_helper_read ly ctx x w = Some (tt, w')
    /\ length (calls w')
       = (length (calls w)
          + (if dispatches ly x then length (scripts ctx) else 0))%nat
    /\ (dispatches ly x = false ->
        engine w' = engine w
        /\ stack w' = stack w
        /\ calls w' = calls w
        /\ (length (log w') <= length (log w) + 1)%nat).
Proof.
  intros Hly. apply layout_ok_facts in Hly.
  rewrite (read_total ly Hly). eexists. split; [reflexivity|].
  destruct x as [p | | e]; cbn [dispatches after_read].
  - unfold accepted.
    destruct (Z.of_nat (length (received p)) <? sizeof_sum ly) eqn:Hlt.
    + apply Z.ltb_lt in Hlt.
      destruct (sizeof_sum ly <=? _) eqn:Hle;
        [apply Z.leb_le in Hle; lia|].
      cbn [andb]. split; [lia|]. intros _. repeat split; lia.
    + apply Z.ltb_ge in Hlt. apply Z.leb_le in Hlt. rewrite Hlt.
      cbn [andb].
      destruct (announced ly (received p) =? _) eqn:Hn.
      * destruct (fan_out_trace (frame_args ly ctx (received p))
                    (scripts ctx) w) as [-> _].
        rewrite length_app, fan_out_records_length.
        split; [reflexivity|discriminate].
      * cbn [calls add_log engine stack log]. split; [lia|]. intros _.
        rewrite length_app. cbn [length]. repeat split; lia.
  - split; [lia|]. intros _. repeat split; lia.
  - cbn [calls add_log set_errno engine stack log]. split; [lia|].
    intros _. rewrite length_app. cbn [length]. repeat split; lia.
Qed.

Lemma X6_witness :
  exists w',
    rspamd_log_helper_read x86_64 two_scripts
      (Datagram frame_three_announced) running = Some (tt, w')
    /\ length (calls w')
       = (length (calls running)
          + (if dispatches x86_64 (Datagram frame_three_announced)
             then length (scripts two_scripts) else 0))%nat
    /\ (dispatches x86_64 (Datagram frame_three_announced) = false ->
        engine w' = engine running
        /\ stack w' = stack running
        /\ calls w' = calls running
        /\ (length (log w') <= length (log running) + 1)%nat).
Proof.
  apply (X6_delivery_is_all_or_nothing x86_64 two_scripts
           (Datagram frame_three_announced) running).
  reflexivity.
Defined.

(** X7.  Handlers run one after the other on one engine: for an accepted
    frame, the call of the [k]-th script is made on the engine state the
    first [k] scripts left, its recorded outcome is what the engine
    answered there, and the callback leaves the engine as the last script
    left it. *)
Theorem X7_handlers_run_in_sequence {E : Type} `{LuaEngine E}
  (ly : layout) (ctx : log_helper_ctx) (frame : list byte) (w : world E) :
  layout_ok ly = true ->
  Z.of_nat (length frame) <= sizeof_buf ->
  accepted ly frame = true ->
  exists w' cs,
    rspamd_log_helper_read ly ctx (Datagram frame) w = Some (tt, w')
    /\ calls w' = calls w ++ cs
    /\ engine w'
       = engine_after (frame_args ly ctx frame) (scripts ctx) (engine w)
    /\ forall k sc,
         nth_error (scripts ctx) k = Some sc ->
         nth_error cs k
         = Some {| callee := LRegistryValue (cbref sc);
                   call_args := frame_args ly ctx frame;
                   call_error :=
                     snd (protected_call
                            (engine_after (frame_args ly ctx frame)
                               (firstn k (scripts ctx)) (engine w))
                            (LRegistryValue (cbref sc))
                            (frame_args ly ctx frame)) |}.
Proof.
  intros Hly Hbuf Hacc. apply layout_ok_facts in Hly.
  destruct (accepted_inv ly Hly frame Hbuf Hacc) as (Hhdr & Hq & _).
  rewrite (read_total ly Hly).
  rewrite (after_read_accepted ly ctx frame w Hbuf Hhdr Hq).
  destruct (fan_out_trace (frame_args ly ctx frame) (scripts ctx) w)
    as [Hcalls _].
  eexists. eexists. split; [reflexivity|]. split; [exact Hcalls|].
  split; [apply fan_out_engine|].
  intros k sc Hk. apply fan_out_records_exact. exact Hk.
Qed.

Lemma X7_witness :
  exists w' cs,
    rspamd_log_helper_read x86_64 two_scripts (Datagram frame_two) running
    = Some (tt, w')
    /\ calls w' = calls running ++ cs
    /\ engine w'
       = engine_after (frame_args x86_64 two_scripts frame_two)
           (scripts two_scripts) (engine running)
    /\ forall k sc,
         nth_error (scripts two_scripts) k = Some sc ->
         nth_error cs k
         = Some {| callee := LRegistryValue (cbref sc);
                   call_args := frame_args x86_64 two_scripts frame_two;
                   call_error :=
                     snd (protected_call
                            (engine_after
                               (frame_args x86_64 two_scripts frame_two)
                               (firstn k (scripts two_scripts))
                               (engine running))
                            (LRegistryValue (cbref sc))
                            (frame_args x86_64 two_scripts frame_two)) |}.
Proof.
  apply (X7_handlers_run_in_sequence x86_64 two_scripts frame_two running).
  - reflexivity.
  - vm_compute. discriminate.
  - vm_compute. reflexivity.
Defined.

(** X8.  The check of line 90 is what keeps the copy loop inside the
    block.  Where the results start at the end of the header and a result
    ends with its score, building the arguments for a count larger than the
    results present reads [sm->results[i].score] past the [r] bytes of
    [sm]: the body of the loop over the scripts is undefined. *)
Theorem X8_unchecked_count_overruns_the_block {E : Type} `{LuaEngine E}
  (ly : layout) (ctx : log_helper_ctx) (sm : list byte) (n : Z)
  (sc : rspamd_worker_lua_script) (w : world E) :
  layout_ok ly = true ->
  off_results ly = sizeof_sum ly ->
  off_res_score ly + 8 = sizeof_result ly ->
  sizeof_sum ly <= Z.of_nat (length sm) <= sizeof_buf ->
  Z.of_nat (length sm) < sizeof_sum ly + n * sizeof_result ly ->
  call_script ly ctx sm n sc w = None.
Proof.
  intros Hly Hres Hlast [Hhdr Hbuf] Hover. apply layout_ok_facts in Hly.
  pose proof (lf_result_pos ly Hly) as HS.
  pose proof (lf_score ly Hly) as Hsc.
  pose proof (lf_required ly Hly) as Hrq.
  assert (0 < n) as Hn by nia.
  unfold call_script, bind, lift, sm_score, sm_required_score, width_double.
  rewrite (load_uint_peek ly sm (off_score ly) 8); [|lia..].
  rewrite (load_uint_peek ly sm (off_required_score ly) 8); [|lia..].
  unfold lua_rawgeti_registry, lua_pushnumber, lua_createtable, push, modify.
  rewrite (for_results_overrun ly Hly sm (Z.to_nat n) Hres Hlast Hbuf 0 []
             (LNumber (num_of_bits (peek ly sm (off_required_score ly) 8))
              :: LNumber (num_of_bits (peek ly sm (off_score ly) 8))
              :: LRegistryValue (cbref sc) :: stack w));
    [reflexivity|reflexivity|reflexivity|lia|rewrite Z2Nat.id; lia].
Qed.

Lemma X8_witness :
  call_script x86_64 two_scripts frame_three_announced 3 {| cbref := 2 |}
    running = None.
Proof.
  apply (X8_unchecked_count_overruns_the_block x86_64 two_scripts
           frame_three_announced 3 {| cbref := 2 |} running).
  - reflexivity.
  - reflexivity.
  - reflexivity.
  - split; vm_compute; discriminate.
  - vm_compute. reflexivity.
Defined.

(** ** Properties of the part accessors *)

Module PartFacts.
Import MimePart.

Ltac unfold_api :=
  unfold returns, lua_check_textpart, lua_check_mimepart, luaL_checkudata,
    luaL_argcheck, lua_pushnil, lua_pushboolean, lua_pushnumber,
    lua_pushinteger, lua_pushstring, lua_newuserdata, rspamd_lua_setclass,
    store_block, deref, push, bind, ret, raise, index, lua_gettop,
    lua_toboolean, textpart_object, mimepart_object, text_object, FALSE.

Lemma store_block_top (l : list value) (mt : option string) (b b' : block) :
  store_block b' (l ++ [VUserdata mt b])
  = Some (Ok tt (l ++ [VUserdata mt b'])).
Proof.
  unfold store_block. rewrite rev_app_distr. cbn [rev app].
  rewrite rev_involutive. reflexivity.
Qed.

Lemma setclass_top (l : list value) (mt : option string) (b : block)
  (classname : string) :
  rspamd_lua_setclass classname (-1) (l ++ [VUserdata mt b])
  = Some (Ok tt (l ++ [VUserdata (Some classname) b])).
Proof.
  unfold rspamd_lua_setclass. cbn [Z.eqb Pos.eqb].
  rewrite rev_app_distr. cbn [rev app].
  rewrite rev_involutive. reflexivity.
Qed.

(** A fresh userdata of class [classname] holding [b] on top of [l]. *)
Lemma new_object (l : list value) (classname : string) (b : block)
  {A} (k : L A) :
  bind lua_newuserdata
    (fun _ => bind (rspamd_lua_setclass classname (-1))
                (fun _ => bind (store_block b) (fun _ => k))) l
  = k (l ++ [VUserdata (Some classname) b]).
Proof.
  unfold bind at 1. unfold lua_newuserdata, push.
  unfold bind at 1. rewrite setclass_top.
  unfold bind at 1. rewrite store_block_top. reflexivity.
Qed.

Lemma check_textpart_ok (p : option mime_text_part) (rest : list value) :
  lua_check_textpart (textpart_object p :: rest)
  = Some (Ok p (textpart_object p :: rest)).
Proof. reflexivity. Qed.

Lemma check_mimepart_ok (p : option mime_part) (rest : list value) :
  lua_check_mimepart (mimepart_object p :: rest)
  = Some (Ok p (mimepart_object p :: rest)).
Proof. reflexivity. Qed.

Lemma check_textpart_raises (args : list value) :
  not_of_class "rspamd{textpart}" args ->
  lua_check_textpart args
  = Some (Raise (bad_argument 1 "rspamd{textpart}")).
Proof.
  unfold not_of_class, lua_check_textpart, bind, luaL_checkudata.
  destruct (index args 1) as [[| | | |[mt|] b|]|]; try reflexivity.
  intros ->. reflexivity.
Qed.

Lemma check_mimepart_raises (args : list value) :
  not_of_class "rspamd{mimepart}" args ->
  lua_check_mimepart args
  = Some (Raise (bad_argument 1 "rspamd{mimepart}")).
Proof.
  unfold not_of_class, lua_check_mimepart, bind, luaL_checkudata.
  destruct (index args 1) as [[| | | |[mt|] b|]|]; try reflexivity.
  intros ->. reflexivity.
Qed.

Ltac crunch :=
  repeat first
    [ rewrite check_textpart_ok
    | rewrite check_mimepart_ok
    | rewrite setclass_top
    | rewrite store_block_top
    | progress cbv beta iota
    | progress unfold lua_pushnil, lua_pushboolean, lua_pushnumber,
        lua_pushinteger, lua_pushstring, lua_newuserdata, push, ret, deref,
        FALSE
    | match goal with
      | |- context [match ?p with Some _ => _ | None => _ end] =>
          is_var p; destruct p
      | |- context [if truth ?z then _ else _] =>
          destruct (truth z) eqn:?
      | |- context [match ?f ?x with Some _ => _ | None => _ end] =>
          is_var x; destruct (f x) eqn:?
      end ].

Section Returns.

Variable IS_PART_EMPTY : mime_text_part -> Z.
Variable IS_PART_UTF : mime_text_part -> Z.
Variable IS_PART_HTML : mime_text_part -> Z.

Variable p : option mime_text_part.
Variable rest : list value.

Let self := textpart_object p.

Lemma is_utf_returns :
  returns (lua_textpart_is_utf IS_PART_EMPTY IS_PART_UTF) (self :: rest)
    [VBoolean match p with
              | Some tp =>
                  if truth (IS_PART_EMPTY tp) then false
                  else truth (IS_PART_UTF tp)
              | None => false
              end].
Proof.
  unfold returns, lua_textpart_is_utf, bind, self. crunch; reflexivity.
Qed.

Lemma get_content_returns :
  content_reachable IS_PART_EMPTY p ->
  returns (lua_textpart_get_content IS_PART_EMPTY) (self :: rest)
    [match p with
     | Some tp =>
         if truth (IS_PART_EMPTY tp) then VNil
         else match content tp with
              | Some c => text_object c
              | None => VNil
              end
     | None => VNil
     end].
Proof.
  unfold content_reachable, returns, lua_textpart_get_content, bind, self.
  intros Hreach. crunch; try reflexivity.
  exfalso. apply Hreach; reflexivity.
Qed.

Lemma get_length_returns :
  returns (lua_textpart_get_length IS_PART_EMPTY) (self :: rest)
    [match p with
     | Some tp =>
         if truth (IS_PART_EMPTY tp) then VNumber 0
         else match content tp with
              | Some c => VNumber (len c)
              | None => VNumber 0
              end
     | None => VNil
     end].
Proof.
  unfold returns, lua_textpart_get_length, bind, self. crunch; reflexivity.
Qed.

Lemma get_raw_length_returns :
  returns lua_textpart_get_raw_length (self :: rest)
    [match p with
     | Some tp => match orig tp with
                  | Some o => VNumber (len o)
                  | None => VNumber 0
                  end
     | None => VNil
     end].
Proof.
  unfold returns, lua_textpart_get_raw_length, bind, self.
  crunch; reflexivity.
Qed.

Lemma get_lines_count_returns :
  returns (lua_textpart_get_lines_count IS_PART_EMPTY) (self :: rest)
    [match p with
     | Some tp =>
         if truth (IS_PART_EMPTY tp) then VNumber 0 else VNumber (nlines tp)
     | None => VNil
     end].
Proof.
  unfold returns, lua_textpart_get_lines_count, bind, self.
  crunch; reflexivity.
Qed.

Lemma get_words_count_returns :
  returns (lua_textpart_get_words_count IS_PART_EMPTY) (self :: rest)
    [match p with
     | Some tp =>
         if truth (IS_PART_EMPTY tp) then VNumber 0
         else match normalized_words tp with
              | Some ws => VNumber (garray_len ws)
              | None => VNumber 0
              end
     | None => VNil
     end].
Proof.
  unfold returns, lua_textpart_get_words_count, bind, self.
  crunch; reflexivity.
Qed.

Lemma is_empty_returns :
  returns (lua_textpart_is_empty IS_PART_EMPTY) (self :: rest)
    [match p with
     | Some tp => VBoolean (truth (IS_PART_EMPTY tp))
     | None => VNil
     end].
Proof.
  unfold returns, lua_textpart_is_empty, bind, self. crunch; reflexivity.
Qed.

Lemma is_html_returns :
  returns (lua_textpart_is_html IS_PART_HTML) (self :: rest)
    [match p with
     | Some tp => VBoolean (truth (IS_PART_HTML tp))
     | None => VNil
     end].
Proof.
  unfold returns, lua_textpart_is_html, bind, self. crunch; reflexivity.
Qed.

Lemma get_html_returns :
  returns lua_textpart_get_html (self :: rest)
    [match p with
     | Some tp => match html tp with
                  | Some hc => VUserdata (Some "rspamd{html}"%string)
                                 (blk_html hc)
                  | None => VNil
                  end
     | None => VNil
     end].
Proof.
  unfold returns, lua_textpart_get_html, bind, self. crunch; reflexivity.
Qed.

Lemma get_language_returns :
  returns lua_textpart_get_language (self :: rest)
    [match p with
     | Some tp => match lang_code tp with
                  | Some (String c s) => VString (String c s)
                  | _ => VNil
                  end
     | None => VNil
     end].
Proof.
  unfold returns, lua_textpart_get_language, bind, self.
  crunch; try reflexivity.
  match goal with |- context [match ?s with EmptyString => _ | _ => _ end] =>
    destruct s end; crunch; reflexivity.
Qed.

Lemma get_mimepart_returns :
  returns lua_textpart_get_mimepart (self :: rest)
    [match p with
     | Some tp => match mimepart tp with
                  | Some mp => mimepart_object (Some mp)
                  | None => VNil
                  end
     | None => VNil
     end].
Proof.
  unfold returns, lua_textpart_get_mimepart, bind, self.
  crunch; reflexivity.
Qed.

End Returns.

Section MimeReturns.

Variable p : option mime_part.
Variable rest : list value.

Let self := mimepart_object p.

Lemma mimepart_get_content_returns :
  (forall mp, p = Some mp -> mp_content mp <> None) ->
  returns lua_mimepart_get_content (self :: rest)
    [match p with
     | Some mp => match mp_content mp with
                  | Some c => text_object c
                  | None => VNil
                  end
     | None => VNil
     end].
Proof.
  unfold returns, lua_mimepart_get_content, bind, self.
  intros Hc. crunch; try reflexivity.
  exfalso. eapply Hc; [reflexivity|eassumption].
Qed.

Lemma mimepart_get_length_returns :
  (forall mp, p = Some mp -> mp_content mp <> None) ->
  returns lua_mimepart_get_length (self :: rest)
    [match p with
     | Some mp => match mp_content mp with
                  | Some c => VNumber (len c)
                  | None => VNil
                  end
     | None => VNil
     end].
Proof.
  unfold returns, lua_mimepart_get_length, bind, self.
  intros Hc. crunch; try reflexivity.
  exfalso. eapply Hc; [reflexivity|eassumption].
Qed.

Lemma mimepart_get_type_returns :
  (forall mp, p = Some mp -> mp_type mp <> None) ->
  returns lua_mimepart_get_type (self :: rest)
    match p with
    | Some mp =>
        match mp_type mp with
        | Some t =>
            [ match media_type t with Some s => VString s | None => VNil end;
              match media_subtype t with
              | Some s => VString s
              | None => VNil
              end ]
        | None => [VNil; VNil]
        end
    | None => [VNil; VNil]
    end.
Proof.
  unfold returns, lua_mimepart_get_type, bind, self.
  intros Ht. crunch; try (rewrite <- app_assoc; reflexivity).
  exfalso. eapply Ht; [reflexivity|eassumption].
Qed.

Lemma mimepart_get_filename_returns :
  returns lua_mimepart_get_filename (self :: rest)
    [match p with
     | Some mp => match mp_filename mp with
                  | Some f => VString f
                  | None => VNil
                  end
     | None => VNil
     end].
Proof.
  unfold returns, lua_mimepart_get_filename, bind, self.
  crunch; reflexivity.
Qed.

End MimeReturns.

End PartFacts.

Import MimePart PartFacts.

(** X9.  Every accessor of a text part keeps the discipline of a Lua C
    function: called on a text part object, whether its pointer is NULL or
    not, it returns 1, having pushed exactly one value on top of its
    arguments and left the arguments as they were.  ([get_content] needs a
    part that is flagged empty or has a content.) *)
Theorem X9_textpart_accessors_push_one_value
  (IS_PART_EMPTY IS_PART_UTF IS_PART_HTML : mime_text_part -> Z)
  (class_tostring : L Z) (p : option mime_text_part) (rest : list value)
  (f : L Z) :
  content_reachable IS_PART_EMPTY p ->
  In f (own_methods (textpartlib_m IS_PART_EMPTY IS_PART_UTF IS_PART_HTML
                       class_tostring)) ->
  exists v, returns f (textpart_object p :: rest) [v].
Proof.
  intros Hreach Hin.
  unfold own_methods, textpartlib_m in Hin.
  cbn [filter map fst snd negb String.eqb Ascii.eqb Bool.eqb In] in Hin.
  repeat (destruct Hin as [<- | Hin]); [..|contradiction];
    eexists.
  - apply is_utf_returns.
  - apply get_content_returns. exact Hreach.
  - apply get_length_returns.
  - apply get_raw_length_returns.
  - apply get_lines_count_returns.
  - apply get_words_count_returns.
  - apply is_empty_returns.
  - apply is_html_returns.
  - apply get_html_returns.
  - apply get_language_returns.
  - apply get_mimepart_returns.
Qed.

Lemma X9_witness :
  exists v,
    returns (lua_textpart_get_content MimeDemo.is_part_empty)
      (textpart_object (Some MimeDemo.plain_part) :: [VNumber 7]) [v].
Proof.
  apply (X9_textpart_accessors_push_one_value MimeDemo.is_part_empty
           MimeDemo.is_part_utf MimeDemo.is_part_html
           MimeDemo.class_tostring (Some MimeDemo.plain_part) [VNumber 7]).
  - simpl. discriminate.
  - simpl. right. left. reflexivity.
Defined.

(** X10.  A part object whose pointer is NULL is answered without being
    read, whatever the other arguments are.  Every text part accessor
    returns nil, except [is_utf], which returns false.  The mime part
    accessors [get_content], [get_length] and [get_filename] return nil
    and [get_type] two nils.  The three header accessors check the name
    before they look at the pointer: with a string as second argument they
    return nil, with a number they turn it into a string in place and
    return nil, and with anything else, or no second argument, they raise a
    bad-argument error for argument 2; in no case is a header looked up. *)
Theorem X10_null_part_gives_nil
  (IS_PART_EMPTY IS_PART_UTF IS_PART_HTML : mime_text_part -> Z)
  (lua_number_fmt : Z -> string)
  (push_header : Z -> string -> bool -> bool -> bool -> L Z)
  (class_tostring : L Z) (rest : list value) :
  (forall name f,
     In (name, f) (textpartlib_m IS_PART_EMPTY IS_PART_UTF IS_PART_HTML
                     class_tostring) ->
     name <> "__tostring"%string ->
     returns f (textpart_object None :: rest)
       [if String.eqb name "is_utf" then VBoolean false else VNil])
  /\ (forall name f,
        In (name, f) (mimepartlib_m lua_number_fmt push_header
                        class_tostring) ->
        name <> "__tostring"%string ->
        let args := mimepart_object None :: rest in
        if is_header_accessor name then
          match rest with
          | VString s :: _ => returns f args [VNil]
          | VNumber z :: more =>
              f args
              = Some (Ok 1 (mimepart_object None
                            :: VString (lua_number_fmt z) :: more
                            ++ [VNil]))
          | _ => f args = Some (Raise (bad_argument 2 "string"))
          end
        else
          returns f args
            (if String.eqb name "get_type" then [VNil; VNil] else [VNil])).
Proof.
  split; intros name f Hin Hname.
  - unfold textpartlib_m in Hin. cbn [In] in Hin.
    repeat (destruct Hin as [[= <- <-] | Hin]); try contradiction;
      try (exfalso; apply Hname; reflexivity);
      cbn [String.eqb Ascii.eqb Bool.eqb].
    + apply (is_utf_returns IS_PART_EMPTY IS_PART_UTF None).
    + apply (get_content_returns IS_PART_EMPTY None). exact I.
    + apply (get_length_returns IS_PART_EMPTY None).
    + apply (get_raw_length_returns None).
    + apply (get_lines_count_returns IS_PART_EMPTY None).
    + apply (get_words_count_returns IS_PART_EMPTY None).
    + apply (is_empty_returns IS_PART_EMPTY None).
    + apply (is_html_returns IS_PART_HTML None).
    + apply (get_html_returns None).
    + apply (get_language_returns None).
    + apply (get_mimepart_returns None).
  - assert (forall full raw,
              match rest with
              | VString s :: _ =>
                  returns (lua_mimepart_get_header_common lua_number_fmt
                             push_header full raw)
                    (mimepart_object None :: rest) [VNil]
              | VNumber z :: more =>
                  lua_mimepart_get_header_common lua_number_fmt push_header
                    full raw (mimepart_object None :: rest)
                  = Some (Ok 1 (mimepart_object None
                                :: VString (lua_number_fmt z) :: more
                                ++ [VNil]))
              | _ =>
                  lua_mimepart_get_header_common lua_number_fmt push_header
                    full raw (mimepart_object None :: rest)
                  = Some (Raise (bad_argument 2 "string"))
              end) as Hcommon.
    { intros full raw.
      destruct rest as [|[| b | z | s | mt blk | tag] more]; reflexivity. }
    unfold mimepartlib_m in Hin. cbn [In] in Hin.
    repeat (destruct Hin as [[= <- <-] | Hin]); try contradiction;
      try (exfalso; apply Hname; reflexivity);
      cbv zeta;
      cbn [is_header_accessor orb String.eqb Ascii.eqb Bool.eqb].
    + apply (mimepart_get_content_returns None). discriminate.
    + apply (mimepart_get_length_returns None). discriminate.
    + apply (mimepart_get_type_returns None). discriminate.
    + apply (mimepart_get_filename_returns None).
    + apply (Hcommon false false).
    + apply (Hcommon false true).
    + apply (Hcommon true true).
Qed.

(** X11.  The EMPTY flag comes first: for a part flagged empty, whatever
    its other fields hold, [is_utf] is false, [get_content] is nil,
    [get_length], [get_lines_count] and [get_words_count] are 0 and
    [is_empty] is true. *)
Theorem X11_empty_flag_takes_precedence
  (IS_PART_EMPTY IS_PART_UTF : mime_text_part -> Z)
  (tp : mime_text_part) (rest : list value) :
  truth (IS_PART_EMPTY tp) = true ->
  let args := textpart_object (Some tp) :: rest in
  returns (lua_textpart_is_utf IS_PART_EMPTY IS_PART_UTF) args
    [VBoolean false]
  /\ returns (lua_textpart_get_content IS_PART_EMPTY) args [VNil]
  /\ returns (lua_textpart_get_length IS_PART_EMPTY) args [VNumber 0]
  /\ returns (lua_textpart_get_lines_count IS_PART_EMPTY) args [VNumber 0]
  /\ returns (lua_textpart_get_words_count IS_PART_EMPTY) args [VNumber 0]
  /\ returns (lua_textpart_is_empty IS_PART_EMPTY) args [VBoolean true].
Proof.
  intros He args. subst args.
  pose proof (is_utf_returns IS_PART_EMPTY IS_PART_UTF (Some tp) rest) as H1.
  pose proof (get_content_returns IS_PART_EMPTY (Some tp) rest) as H2.
  pose proof (get_length_returns IS_PART_EMPTY (Some tp) rest) as H3.
  pose proof (get_lines_count_returns IS_PART_EMPTY (Some tp) rest) as H4.
  pose proof (get_words_count_returns IS_PART_EMPTY (Some tp) rest) as H5.
  pose proof (is_empty_returns IS_PART_EMPTY (Some tp) rest) as H6.
  cbv beta iota in H1, H2, H3, H4, H5, H6.
  rewrite He in H1, H2, H3, H4, H5, H6.
  repeat split; try assumption.
  apply H2. unfold content_reachable. rewrite He. discriminate.
Qed.

Lemma X11_witness :
  let args := textpart_object (Some MimeDemo.empty_part) :: [] in
  returns (lua_textpart_is_utf MimeDemo.is_part_empty MimeDemo.is_part_utf)
    args [VBoolean false]
  /\ returns (lua_textpart_get_content MimeDemo.is_part_empty) args [VNil]
  /\ returns (lua_textpart_get_length MimeDemo.is_part_empty) args
       [VNumber 0]
  /\ returns (lua_textpart_get_lines_count MimeDemo.is_part_empty) args
       [VNumber 0]
  /\ returns (lua_textpart_get_words_count MimeDemo.is_part_empty) args
       [VNumber 0]
  /\ returns (lua_textpart_is_empty MimeDemo.is_part_empty) args
       [VBoolean true].
Proof.
  apply (X11_empty_flag_takes_precedence MimeDemo.is_part_empty
           MimeDemo.is_part_utf MimeDemo.empty_part []).
  reflexivity.
Defined.

(** X12.  The length and the content of a text part agree, up to a guard
    only the length has.  For a part not flagged empty with a content,
    [get_length] returns the [len] of the text object [get_content]
    returns, which points at the part's bytes and does not own them.  With
    a NULL content [get_length] returns 0, while [get_content] reads
    through the NULL pointer. *)
Theorem X12_textpart_length_guards_null_content
  (IS_PART_EMPTY : mime_text_part -> Z) (tp : mime_text_part)
  (rest : list value) :
  truth (IS_PART_EMPTY tp) = false ->
  let args := textpart_object (Some tp) :: rest in
  (forall c, content tp = Some c ->
     returns (lua_textpart_get_content IS_PART_EMPTY) args
       [VUserdata (Some "rspamd{text}"%string)
          (blk_text (data c) (len c) false)]
     /\ returns (lua_textpart_get_length IS_PART_EMPTY) args
          [VNumber (len c)])
  /\ (content tp = None ->
      returns (lua_textpart_get_length IS_PART_EMPTY) args [VNumber 0]
      /\ lua_textpart_get_content IS_PART_EMPTY args = None).
Proof.
  intros He args. subst args. split.
  - intros c Hc.
    pose proof (get_content_returns IS_PART_EMPTY (Some tp) rest) as H1.
    pose proof (get_length_returns IS_PART_EMPTY (Some tp) rest) as H2.
    cbv beta iota in H1, H2. rewrite He, Hc in H1, H2.
    split; [|exact H2].
    apply H1. unfold content_reachable. rewrite Hc. discriminate.
  - intros Hc.
    pose proof (get_length_returns IS_PART_EMPTY (Some tp) rest) as H2.
    cbv beta iota in H2. rewrite He, Hc in H2.
    split; [exact H2|].
    unfold lua_textpart_get_content, bind.
    rewrite check_textpart_ok. cbv beta iota. rewrite He, Hc.
    unfold lua_newuserdata, push. rewrite setclass_top. reflexivity.
Qed.

Lemma X12_witness :
  let args := textpart_object (Some MimeDemo.hollow_part) :: [] in
  (forall c, content MimeDemo.hollow_part = Some c ->
     returns (lua_textpart_get_content MimeDemo.is_part_empty) args
       [VUserdata (Some "rspamd{text}"%string)
          (blk_text (data c) (len c) false)]
     /\ returns (lua_textpart_get_length MimeDemo.is_part_empty) args
          [VNumber (len c)])
  /\ (content MimeDemo.hollow_part = None ->
      returns (lua_textpart_get_length MimeDemo.is_part_empty) args
        [VNumber 0]
      /\ lua_textpart_get_content MimeDemo.is_part_empty args = None).
Proof.
  apply (X12_textpart_length_guards_null_content MimeDemo.is_part_empty
           MimeDemo.hollow_part []).
  reflexivity.
Defined.

(** X13.  A mime part is read without guards.  With a content,
    [get_length] returns the [len] of the text object [get_content]
    returns; with a NULL content both read through the NULL pointer.
    [get_type] returns two values, the type and the subtype (nil for a NULL
    string), and reads through [part->type] even when it is NULL. *)
Theorem X13_mimepart_reads_content_and_type_unguarded
  (mp : mime_part) (rest : list value) :
  let args := mimepart_object (Some mp) :: rest in
  (forall c, mp_content mp = Some c ->
     returns lua_mimepart_get_content args
       [VUserdata (Some "rspamd{text}"%string)
          (blk_text (data c) (len c) false)]
     /\ returns lua_mimepart_get_length args [VNumber (len c)])
  /\ (mp_content mp = None ->
      lua_mimepart_get_content args = None
      /\ lua_mimepart_get_length args = None)
  /\ (forall t, mp_type mp = Some t ->
        returns lua_mimepart_get_type args
          [ match media_type t with Some s => VString s | None => VNil end;
            match media_subtype t with
            | Some s => VString s
            | None => VNil
            end ])
  /\ (mp_type mp = None -> lua_mimepart_get_type args = None).
Proof.
  intros args. subst args. repeat split.
  - pose proof (mimepart_get_content_returns (Some mp) rest) as H1.
    cbv beta iota in H1. rewrite H in H1. apply H1.
    intros mp' [= <-]. rewrite H. discriminate.
  - pose proof (mimepart_get_length_returns (Some mp) rest) as H1.
    cbv beta iota in H1. rewrite H in H1. apply H1.
    intros mp' [= <-]. rewrite H. discriminate.
  - unfold lua_mimepart_get_content, bind.
    rewrite check_mimepart_ok. cbv beta iota. rewrite H.
    unfold lua_newuserdata, push. rewrite setclass_top. reflexivity.
  - unfold lua_mimepart_get_length, bind.
    rewrite check_mimepart_ok. cbv beta iota. rewrite H. reflexivity.
  - intros t Ht.
    pose proof (mimepart_get_type_returns (Some mp) rest) as H1.
    cbv beta iota in H1. rewrite Ht in H1. apply H1.
    intros mp' [= <-]. rewrite Ht. discriminate.
  - intros Ht. unfold lua_mimepart_get_type, bind.
    rewrite check_mimepart_ok. cbv beta iota. rewrite Ht. reflexivity.
Qed.

(** X14.  [get_language] never returns an empty string: it returns the
    language code when there is a part with a code of at least one
    character, and nil in every other case. *)
Theorem X14_language_is_nil_or_not_empty
  (p : option mime_text_part) (rest : list value) :
  exists v,
    returns lua_textpart_get_language (textpart_object p :: rest) [v]
    /\ v <> VString ""
    /\ (v = VNil
        <-> (p = None
             \/ exists tp, p = Some tp
                           /\ (lang_code tp = None
                               \/ lang_code tp = Some ""%string)))
    /\ (forall tp c s,
          p = Some tp -> lang_code tp = Some (String c s) ->
          v = VString (String c s)).
Proof.
  eexists. split; [apply get_language_returns|].
  destruct p as [tp|].
  - destruct (lang_code tp) as [[|c s]|] eqn:Hl.
    + split; [discriminate|]. split.
      * split; [|reflexivity]. intros _. right. exists tp. tauto.
      * intros tp' c s [= <-] Hl'. congruence.
    + split; [discriminate|]. split.
      * split; [discriminate|].
        intros [Hn | (tp' & [= <-] & [Hl' | Hl'])]; congruence.
      * intros tp' c' s' [= <-] Hl'. congruence.
    + split; [discriminate|]. split.
      * split; [|reflexivity]. intros _. right. exists tp. tauto.
      * intros tp' c s [= <-] Hl'. congruence.
  - split; [discriminate|]. split.
    + split; [|reflexivity]. intros _. left. reflexivity.
    + intros tp c s Hp. discriminate.
Qed.

(** X15.  The header accessors take the case-sensitivity flag from the
    third argument only when the call has exactly three arguments.  Called
    on a mime part with a name, [get_header], [get_header_raw] and
    [get_header_full] look the name up in the part's headers with
    (full, raw) = (false, false), (false, true) and (true, true); the
    lookup is case-sensitive exactly when there is one more argument and
    it is neither nil nor false, and with two or more further arguments
    the flag is off whatever they are. *)
Theorem X15_header_flag_needs_exactly_three_arguments
  (lua_number_fmt : Z -> string)
  (push_header : Z -> string -> bool -> bool -> bool -> L Z)
  (mp : mime_part) (name : string) (extra : list value) :
  let args := mimepart_object (Some mp) :: VString name :: extra in
  lua_mimepart_get_header lua_number_fmt push_header args
  = push_header (raw_headers mp) name (strong_of extra) false false args
  /\ lua_mimepart_get_header_raw lua_number_fmt push_header args
     = push_header (raw_headers mp) name (strong_of extra) false true args
  /\ lua_mimepart_get_header_full lua_number_fmt push_header args
     = push_header (raw_headers mp) name (strong_of extra) true true args.
Proof.
  intros args. subst args.
  assert (forall full raw,
            lua_mimepart_get_header_common lua_number_fmt push_header
              full raw (mimepart_object (Some mp) :: VString name :: extra)
            = push_header (raw_headers mp) name (strong_of extra) full raw
                (mimepart_object (Some mp) :: VString name :: extra))
    as Hcommon.
  { intros full raw.
    set (st := mimepart_object (Some mp) :: VString name :: extra).
    assert (luaL_checkstring lua_number_fmt 2 st = Some (Ok name st)) as Hs
      by reflexivity.
    unfold lua_mimepart_get_header_common, bind.
    unfold st at 1. rewrite check_mimepart_ok. fold st.
    rewrite Hs. unfold lua_gettop.
    destruct extra as [|v [|v' more]].
    - reflexivity.
    - destruct v; reflexivity.
    - destruct (Z.of_nat (length st) =? 3) eqn:Hlen.
      + apply Z.eqb_eq in Hlen. unfold st in Hlen. cbn [length] in Hlen.
        lia.
      + reflexivity. }
  repeat split; apply Hcommon.
Qed.

(** X16.  No accessor reads an object of another class.  Called with
    anything but a userdata of its own class as first argument (no
    argument at all, a value of another type, a mime part given to a text
    part accessor or the reverse), every accessor of either table raises a
    bad-argument error for argument 1 and pushes nothing. *)
Theorem X16_accessors_reject_foreign_objects
  (IS_PART_EMPTY IS_PART_UTF IS_PART_HTML : mime_text_part -> Z)
  (lua_number_fmt : Z -> string)
  (push_header : Z -> string -> bool -> bool -> bool -> L Z)
  (class_tostring : L Z) (args : list value) :
  (not_of_class "rspamd{textpart}" args ->
   forall f,
     In f (own_methods (textpartlib_m IS_PART_EMPTY IS_PART_UTF IS_PART_HTML
                          class_tostring)) ->
     f args = Some (Raise (bad_argument 1 "rspamd{textpart}")))
  /\ (not_of_class "rspamd{mimepart}" args ->
      forall f,
        In f (own_methods (mimepartlib_m lua_number_fmt push_header
                             class_tostring)) ->
        f args = Some (Raise (bad_argument 1 "rspamd{mimepart}"))).
Proof.
  split; intros Hcls f Hin.
  - apply check_textpart_raises in Hcls.
    unfold own_methods, textpartlib_m in Hin.
    cbn [filter map fst snd negb String.eqb Ascii.eqb Bool.eqb In] in Hin.
    repeat (destruct Hin as [<- | Hin]); [..|contradiction];
      unfold lua_textpart_is_utf, lua_textpart_get_content,
        lua_textpart_get_length, lua_textpart_get_raw_length,
        lua_textpart_get_lines_count, lua_textpart_get_words_count,
        lua_textpart_is_empty, lua_textpart_is_html, lua_textpart_get_html,
        lua_textpart_get_language, lua_textpart_get_mimepart;
      unfold bind at 1; rewrite Hcls; reflexivity.
  - apply check_mimepart_raises in Hcls.
    unfold own_methods, mimepartlib_m in Hin.
    cbn [filter map fst snd negb String.eqb Ascii.eqb Bool.eqb In] in Hin.
    repeat (destruct Hin as [<- | Hin]); [..|contradiction];
      unfold lua_mimepart_get_content, lua_mimepart_get_length,
        lua_mimepart_get_type, lua_mimepart_get_filename,
        lua_mimepart_get_header, lua_mimepart_get_header_raw,
        lua_mimepart_get_header_full, lua_mimepart_get_header_common;
      unfold bind at 1; rewrite Hcls; reflexivity.
Qed.
